(** * CoinScribe: serverless handlers, dashboard hooks and schema migration

    A shallow embedding of the executable parts of the CoinScribe repository:
    - the rate-limited serverless function (connection cache, in-memory
      fixed-window rate limiter, [limit] query parameter),
    - the plain [db-test] serverless function,
    - the [App] component's effect (abortable [fetchCoins]) and its memoized
      [formattedCoins],
    - the SQL migration that creates the coins schema.

    Conventions.  JavaScript numbers that the code only uses as integers
    (millisecond clock readings, request counters, status codes) are [Z];
    the result of [parseInt] is a [jsnum], an integer or [NaN].  Strings are
    sequences of code units below 256.  The module-level [Map] of the rate
    limiter is a [gmap string RateRecord]. *)

From Stdlib Require Import ZArith QArith String Ascii List Bool Lia DecimalString
  DecimalPos.
From stdpp Require Import gmap strings list fin_maps.

Local Open Scope string_scope.
Local Open Scope Z_scope.

(* ===================================================================== *)
(** ** The JavaScript built-ins the handlers call *)
(* ===================================================================== *)

Module JS.

(** The value of [parseInt]: an integral Number or [NaN].  Rounding of
    integers beyond 2^53 (and overflow to [Infinity]) and the sign of zero
    are not represented; both are invisible to a clamp between 1 and 100. *)
Inductive jsnum : Type :=
| NaN : jsnum
| Num : Z -> jsnum.

Definition code (c : ascii) : Z := Z.of_N (N_of_ascii c).

(** StrWhiteSpaceChar restricted to code units below 256: TAB, LF, VT, FF,
    CR, SP and NBSP. *)
Definition isStrWhiteSpaceChar (c : ascii) : bool :=
  let n := code c in
  (n =? 9) || (n =? 10) || (n =? 11) || (n =? 12) || (n =? 13)
  || (n =? 32) || (n =? 160).

Fixpoint trimStart (s : string) : string :=
  match s with
  | String c rest => if isStrWhiteSpaceChar c then trimStart rest else s
  | EmptyString => s
  end.

(** Value of a code unit as a digit of radix [R], if it is one. *)
Definition digitValue (R : Z) (c : ascii) : option Z :=
  let n := code c in
  let v :=
    if (48 <=? n) && (n <=? 57) then Some (n - 48)
    else if (97 <=? n) && (n <=? 122) then Some (n - 87)
    else if (65 <=? n) && (n <=? 90) then Some (n - 55)
    else None in
  match v with
  | Some d => if d <? R then Some d else None
  | None => None
  end.

(** Longest prefix of radix-[R] digits, read as an integer; [acc] is [None]
    until the first digit has been consumed. *)
Fixpoint parseDigits (R : Z) (s : string) (acc : option Z) : option Z :=
  match s with
  | String c rest =>
      match digitValue R c with
      | Some d =>
          parseDigits R rest
            (Some (R * (match acc with Some a => a | None => 0 end) + d))
      | None => acc
      end
  | EmptyString => acc
  end.

(** [parseInt(string)] with the radix argument omitted. *)
Definition parseInt (s : string) : jsnum :=
  let S0 := trimStart s in
  let '(sign, S1) :=
    match S0 with
    | String "-" rest => (-1, rest)
    | String "+" rest => (1, rest)
    | _ => (1, S0)
    end in
  let '(R, S2) :=
    match S1 with
    | String "0" (String "x" rest) => (16, rest)
    | String "0" (String "X" rest) => (16, rest)
    | _ => (10, S1)
    end in
  match parseDigits R S2 None with
  | Some n => Num (sign * n)
  | None => NaN
  end.

(** [Math.max] and [Math.min] of two arguments: [NaN] is contagious. *)
Definition Math_max (a b : jsnum) : jsnum :=
  match a, b with
  | Num x, Num y => Num (Z.max x y)
  | _, _ => NaN
  end.

Definition Math_min (a b : jsnum) : jsnum :=
  match a, b with
  | Num x, Num y => Num (Z.min x y)
  | _, _ => NaN
  end.

(** [v || dflt] for a [string | null] value: [null] and the empty string
    are falsy. *)
Definition or_string (v : option string) (dflt : string) : string :=
  match v with
  | Some EmptyString => dflt
  | Some s => s
  | None => dflt
  end.

(** [String(n)] for an integral Number below 1e21 in magnitude. *)
Definition String_of_int (n : Z) : string :=
  NilZero.string_of_int (Z.to_int n).

(** A value caught by a [catch] clause: an [Error] instance with its
    [message] and [stack], or any other thrown value. *)
Inductive Thrown : Type :=
| ThrownError (message : string) (stack : option string)
| ThrownOther.

(** [error instanceof Error ? error.message : dflt] *)
Definition message_or (e : Thrown) (dflt : string) : string :=
  match e with
  | ThrownError msg _ => msg
  | ThrownOther => dflt
  end.

(** [error instanceof Error ? error.stack : undefined] *)
Definition stack_of (e : Thrown) : option string :=
  match e with
  | ThrownError _ st => st
  | ThrownOther => None
  end.

(** Property values that occur in the objects handed to [JSON.stringify]. *)
Inductive Value : Type :=
| VString (s : string)
| VNumber (n : jsnum).

(** An object literal: its properties in source order. *)
Definition Object := list (string * Value).

Fixpoint get {A : Type} (key : string) (o : list (string * A)) : option A :=
  match o with
  | (k, v) :: rest => if String.eqb k key then Some v else get key rest
  | nil => None
  end.

End JS.

(* ===================================================================== *)
(** ** The in-memory rate limiter *)
(* ===================================================================== *)

Module RateLimit.

(** [{ count: number; resetTime: number }] *)
Record RateRecord : Type := mkRecord { count : Z; resetTime : Z }.

(** [record.count++] *)
Definition incr (r : RateRecord) : RateRecord :=
  {| count := count r + 1; resetTime := resetTime r |}.

(** Size above which a call sweeps the map. *)
Definition sweepThreshold : Z := 10000.

(** The entry test of the sweep loop: [value.resetTime < cutoff]. *)
Definition stale (cutoff : Z) (r : RateRecord) : bool := resetTime r <? cutoff.

(** The [for ... of rateLimitMap.entries()] loop: every entry whose
    [resetTime] is below the cutoff is deleted. *)
Definition sweepLoop (cutoff : Z) (m : gmap string RateRecord)
  : gmap string RateRecord :=
  filter (fun kv => stale cutoff (snd kv) = false) m.

(** The clean-up block at the head of [checkRateLimit]. *)
Definition cleanup (now windowMs : Z) (m : gmap string RateRecord)
  : gmap string RateRecord :=
  if sweepThreshold <? Z.of_nat (size m)
  then sweepLoop (now - windowMs) m
  else m.

(** [checkRateLimit(ip, maxRequests, windowMs)] with [now] the reading of
    [Date.now()].  [record] is looked up before the clean-up block runs;
    [record.count++] updates the object in place, which is still the
    map's entry for [ip] exactly when the sweep kept that entry. *)
Definition checkRateLimit (ip : string) (maxRequests windowMs now : Z)
    (m : gmap string RateRecord) : bool * gmap string RateRecord :=
  let record := m !! ip in
  let m1 := cleanup now windowMs m in
  match record with
  | None => (true, <[ip := mkRecord 1 (now + windowMs)]> m1)
  | Some r =>
      if resetTime r <? now
      then (true, <[ip := mkRecord 1 (now + windowMs)]> m1)
      else if count r <? maxRequests
           then (true, alter incr ip m1)
           else (false, m1)
  end.

(** The call the handler makes: default [maxRequests] and [windowMs]. *)
Definition checkRateLimit_default (ip : string) (now : Z)
    (m : gmap string RateRecord) : bool * gmap string RateRecord :=
  checkRateLimit ip 60 60000 now m.

(** A sequence of calls, each with its client and clock reading; the
    answers in order and the final map. *)
Fixpoint calls (tr : list (string * Z)) (m : gmap string RateRecord)
  : list bool * gmap string RateRecord :=
  match tr with
  | nil => (nil, m)
  | (ip, now) :: rest =>
      let '(ok, m1) := checkRateLimit_default ip now m in
      let '(oks, m2) := calls rest m1 in
      (ok :: oks, m2)
  end.

(** The answers given to client [ip] in a sequence of calls. *)
Fixpoint answersFor (ip : string) (tr : list (string * Z))
    (m : gmap string RateRecord) : list bool :=
  match tr with
  | nil => nil
  | (ip', now) :: rest =>
      let '(ok, m1) := checkRateLimit_default ip' now m in
      if String.eqb ip' ip
      then ok :: answersFor ip rest m1
      else answersFor ip rest m1
  end.

(** The clock readings of [ip]'s own calls. *)
Definition timesOf (ip : string) (tr : list (string * Z)) : list Z :=
  map snd (List.filter (fun c => String.eqb (fst c) ip) tr).

(** The clock never runs backwards along a sequence of calls, and never
    reads below [t]. *)
Fixpoint clockFrom (t : Z) (tr : list (string * Z)) : Prop :=
  match tr with
  | nil => True
  | (_, now) :: rest => t <= now /\ clockFrom now rest
  end.

(** *** One client's view of the limiter

    What [checkRateLimit] does with the record of the calling client,
    leaving the rest of the map aside: the answer and the record the
    client has afterwards. *)
Definition clientStep (o : option RateRecord) (now : Z) : bool * RateRecord :=
  match o with
  | None => (true, mkRecord 1 (now + 60000))
  | Some r =>
      if resetTime r <? now then (true, mkRecord 1 (now + 60000))
      else if count r <? 60 then (true, incr r)
           else (false, r)
  end.

Fixpoint clientRun (o : option RateRecord) (times : list Z) : list bool :=
  match times with
  | [] => []
  | t :: ts =>
      let '(ok, r) := clientStep o t in
      ok :: clientRun (Some r) ts
  end.

(** A record as it matters from clock reading [t] on: one whose window
    closed before [t] is as good as absent. *)
Definition live (t : Z) (o : option RateRecord) : option RateRecord :=
  match o with
  | Some r => if resetTime r <? t then None else Some r
  | None => None
  end.

End RateLimit.

(* ===================================================================== *)
(** ** What a serverless function sees and returns *)
(* ===================================================================== *)

Module Http.

(** The parts of the [Request] the handlers read: [req.method] and the
    query pairs of [new URL(req.url).searchParams]. *)
Record Request : Type := mkRequest {
  method : string;
  searchParams : list (string * string)
}.

(** [context.ip], which may be undefined. *)
Record Context : Type := mkContext { ip : option string }.

(** [new Response(JSON.stringify(body), { status, headers })]; [body] is
    the object before serialisation. *)
Record Response : Type := mkResponse {
  status : Z;
  headers : list (string * string);
  body : JS.Object
}.

(** What one invocation reads from its environment: the [Date.now()]
    reading inside [checkRateLimit], the later [Date.now()] reading used
    for [X-RateLimit-Reset], the two [new Date().toISOString()] strings
    (response and log), the formatted [responseTime] and whether [neon()]
    throws when it is called. *)
Record Env : Type := mkEnv {
  now : Z;
  nowHeader : Z;
  timestamp : string;
  timestampLog : string;
  responseTime : string;
  neon : option JS.Thrown
}.

(** The [errorDetails] object passed to [console.error]. *)
Record ErrorDetails : Type := mkErrorDetails {
  ed_message : string;
  ed_stack : option string;
  ed_timestamp : string;
  ed_responseTime : string;
  ed_ip : option string
}.

(** One [console.error(label, details)] call. *)
Definition LogEntry : Type := (string * ErrorDetails)%type.

(** [searchParams.get(name)]: the first value with that name, or null. *)
Definition searchParams_get (name : string) (req : Request) : option string :=
  JS.get name (searchParams req).

End Http.

(* ===================================================================== *)
(** ** The rate-limited function (connection cache, limiter, [limit]) *)
(* ===================================================================== *)

Module RateLimitedFunction.
Import JS RateLimit Http.

(** Module-level state: [cachedSql] (is it non-null) and [rateLimitMap]. *)
Record State : Type := mkState {
  cachedSql : bool;
  rateLimitMap : gmap string RateRecord
}.

Definition initial : State := mkState false ∅.

(** [getSql()]: calls [neon()] only while nothing is cached; a throwing
    [neon()] leaves the cache empty. *)
Definition getSql (env : Env) (st : State) : State + Thrown :=
  if cachedSql st then inl st
  else match neon env with
       | None => inl (mkState true (rateLimitMap st))
       | Some e => inr e
       end.

(** [Math.min(Math.max(parseInt(url.searchParams.get('limit') || '10'), 1), 100)] *)
Definition effectiveLimit (req : Request) : jsnum :=
  Math_min
    (Math_max (parseInt (or_string (searchParams_get "limit" req) "10")) (Num 1))
    (Num 100).

Definition methodNotAllowed : Response :=
  mkResponse 405
    [("Content-Type", "application/json"); ("Allow", "GET")]
    [("error", VString "Method not allowed")].

Definition rateLimitExceeded (env : Env) : Response :=
  mkResponse 429
    [("Content-Type", "application/json");
     ("Retry-After", "60");
     ("X-RateLimit-Limit", "60");
     ("X-RateLimit-Remaining", "0");
     ("X-RateLimit-Reset", String_of_int (nowHeader env / 1000 + 60))]
    [("error", VString "Rate limit exceeded");
     ("message", VString "Too many requests. Please try again later.")].

(** [record ? Math.max(60 - record.count, 0) : 59] *)
Definition remainingOf (record : option RateRecord) : Z :=
  match record with
  | Some r => Z.max (60 - count r) 0
  | None => 59
  end.

Definition available (env : Env) (limit : jsnum) (remaining : Z) : Response :=
  mkResponse 200
    [("Content-Type", "application/json");
     ("Cache-Control", "public, max-age=60");
     ("X-RateLimit-Limit", "60");
     ("X-RateLimit-Remaining", String_of_int remaining);
     ("X-RateLimit-Reset", String_of_int (nowHeader env / 1000 + 60))]
    [("message", VString "Database connection available");
     ("timestamp", VString (timestamp env));
     ("responseTime", VString (responseTime env));
     ("limit", VNumber limit)].

Definition connectionFailed (env : Env) (error : Thrown) : Response :=
  mkResponse 500
    [("Content-Type", "application/json")]
    [("error", VString "Database connection failed");
     ("message", VString (message_or error "Unknown error"));
     ("timestamp", VString (timestamp env))].

Definition errorDetails (env : Env) (clientIp : string) (error : Thrown)
  : ErrorDetails :=
  mkErrorDetails (message_or error "Unknown error") (stack_of error)
    (timestampLog env) (responseTime env) (Some clientIp).

(** The default export: response, [console.error] calls, next state. *)
Definition handler (req : Request) (context : Context) (env : Env)
    (st : State) : Response * list LogEntry * State :=
  if negb (String.eqb (method req) "GET")
  then (methodNotAllowed, [], st)
  else
    let clientIp := or_string (ip context) "unknown" in
    let '(ok, m1) := checkRateLimit_default clientIp (now env) (rateLimitMap st) in
    let st1 := mkState (cachedSql st) m1 in
    if negb ok
    then (rateLimitExceeded env, [], st1)
    else
      match getSql env st1 with
      | inl st2 =>
          let limit := effectiveLimit req in
          let record := rateLimitMap st2 !! clientIp in
          (available env limit (remainingOf record), [], st2)
      | inr error =>
          (connectionFailed env error,
           [("Database error:", errorDetails env clientIp error)],
           st1)
      end.

(** One invocation as the platform delivers it. *)
Record Invocation : Type := mkInvocation {
  inv_req : Request;
  inv_context : Context;
  inv_env : Env
}.

(** Successive invocations in one process: the responses in order and
    the state left behind. *)
Fixpoint serve (invs : list Invocation) (st : State) : list Response * State :=
  match invs with
  | [] => ([], st)
  | i :: rest =>
      let '(resp, _, st1) := handler (inv_req i) (inv_context i) (inv_env i) st in
      let '(resps, st2) := serve rest st1 in
      (resp :: resps, st2)
  end.

(** The client key under which an invocation is counted. *)
Definition clientOf (i : Invocation) : string :=
  or_string (ip (inv_context i)) "unknown".

End RateLimitedFunction.

(* ===================================================================== *)
(** ** The [db-test] function *)
(* ===================================================================== *)

Module DbTest.
Import JS Http.

Definition available (env : Env) : Response :=
  mkResponse 200
    [("Content-Type", "application/json");
     ("Cache-Control", "public, max-age=60")]
    [("message", VString "Database connection available");
     ("timestamp", VString (timestamp env));
     ("responseTime", VString (responseTime env))].

Definition connectionFailed (env : Env) (error : Thrown) : Response :=
  mkResponse 500
    [("Content-Type", "application/json")]
    [("error", VString "Database connection failed");
     ("message", VString (message_or error "Unknown error"));
     ("timestamp", VString (timestamp env))].

Definition errorDetails (env : Env) (error : Thrown) : ErrorDetails :=
  mkErrorDetails (message_or error "Unknown error") (stack_of error)
    (timestampLog env) (responseTime env) None.

(** The default export.  Neither [_req] nor [_context] is read; [neon()]
    is called on every invocation. *)
Definition handler (_req : Request) (_context : Context) (env : Env)
  : Response * list LogEntry :=
  match neon env with
  | None => (available env, [])
  | Some error =>
      (connectionFailed env error,
       [("Database error:", errorDetails env error)])
  end.

End DbTest.

(* ===================================================================== *)
(** ** The [App] component: abortable effect and memoized formatting *)
(* ===================================================================== *)

Module App.
Import JS.

(** [interface Coin]; the two numeric fields are decimal literals, kept
    as rationals. *)
Record Coin : Type := mkCoin {
  id : string;
  symbol : string;
  name : string;
  current_price : Q;
  price_change_percentage_24h : Q
}.

Definition mockCoins : list Coin :=
  [ mkCoin "bitcoin" "BTC" "Bitcoin" (45000 # 1) (25 # 10);
    mkCoin "ethereum" "ETH" "Ethereum" (3000 # 1) (- 12 # 10);
    mkCoin "cardano" "ADA" "Cardano" (5 # 10) (57 # 10) ].

(** *** The effect *)

(** A call of one of the three state setters. *)
Inductive Update : Type :=
| setCoins (coins : list Coin)
| setError (message : string)
| setLoading (loading : bool).

(** The body of [fetchCoins] from the point where it inspects
    [abortController.signal.aborted]: [thrown] says whether the [try]
    block raised before reaching its guard, [aborted] is the flag read by
    the guard.  The result lists the setters called, in order. *)
Definition fetchCoins (thrown : option Thrown) (aborted : bool) : list Update :=
  match thrown with
  | None =>
      if negb aborted
      then [setCoins mockCoins; setLoading false]
      else []
  | Some err =>
      if negb aborted
      then [setError (message_or err "Failed to fetch coins"); setLoading false]
      else []
  end.

(** What can happen to one mounted effect: the [fetchCoins] body reaches
    its guard, or React runs the clean-up function. *)
Inductive Action : Type :=
| Resume (thrown : option Thrown)
| Cleanup.

(** What an observer of the component sees. *)
Inductive Event : Type :=
| Updated (u : Update)
| Aborted.

(** One action against the controller's [aborted] flag. *)
Definition step (a : Action) (aborted : bool) : list Event * bool :=
  match a with
  | Resume thrown => (map Updated (fetchCoins thrown aborted), aborted)
  | Cleanup => ([Aborted], true)
  end.

(** A schedule of actions, started with the flag as given. *)
Fixpoint run (schedule : list Action) (aborted : bool) : list Event :=
  match schedule with
  | [] => []
  | a :: rest =>
      let '(evs, aborted') := step a aborted in
      evs ++ run rest aborted'
  end.

(** The effect as written has no [await]: [fetchCoins()] reaches its guard
    during the effect itself, and the clean-up runs at unmount. *)
Definition mountThenUnmount : list Action := [Resume None; Cleanup].

Definition isUpdate (e : Event) : bool :=
  match e with
  | Updated _ => true
  | Aborted => false
  end.

(** *** The memoized formatting *)

(** An element of [formattedCoins]: the coin's own fields and the four
    derived ones. *)
Record FormattedCoin : Type := mkFormatted {
  coin : Coin;
  formattedPrice : string;
  formattedChange : string;
  isPositive : bool;
  upperSymbol : string
}.

(** Arrays are objects with identity: a reference is an address in the
    heap. *)
Definition ref : Type := nat.

Record Heap : Type := mkHeap {
  coinArrays : gmap nat (list Coin);
  formattedArrays : gmap nat (list FormattedCoin);
  nextRef : nat
}.

(** The hook state of the component between renders: the [useMemo] cell
    (dependency and cached value of the last computation), the heap, and
    a counter of how many times the per-coin callback has run. *)
Record Fiber : Type := mkFiber {
  memoCell : option (ref * ref);
  heap : Heap;
  formatRuns : nat
}.

Section Formatting.
(** [Number.prototype.toLocaleString], [toFixed(2)] and
    [String.prototype.toUpperCase] as the runtime provides them. *)
Variable toLocaleString : Q -> string.
Variable toFixed2 : Q -> string.
Variable toUpperCase : string -> string.

(** The callback of [coins.map]. *)
Definition formatCoin (c : Coin) : FormattedCoin :=
  mkFormatted c
    (toLocaleString (current_price c))
    (toFixed2 (price_change_percentage_24h c))
    (Qle_bool 0 (price_change_percentage_24h c))
    (toUpperCase (symbol c)).

(** The factory passed to [useMemo]: maps the array behind [coins] into
    a freshly allocated array. *)
Definition computeFormatted (coins : ref) (f : Fiber) : ref * Fiber :=
  let h := heap f in
  let arr := default [] (coinArrays h !! coins) in
  let out := nextRef h in
  (out,
   mkFiber (Some (coins, out))
     (mkHeap (coinArrays h)
        (<[out := map formatCoin arr]> (formattedArrays h))
        (S out))
     (formatRuns f + length arr)%nat).

(** [useMemo(factory, [coins])]: the cached value is returned when the
    dependency is the same reference as at the last computation. *)
Definition useMemo_formattedCoins (coins : ref) (f : Fiber) : ref * Fiber :=
  match memoCell f with
  | Some (dep, value) =>
      if Nat.eqb dep coins then (value, f) else computeFormatted coins f
  | None => computeFormatted coins f
  end.

(** One render of [App] with the current [coins] state: the reference
    bound to [formattedCoins] and the hook state afterwards. *)
Definition render (coins : ref) (f : Fiber) : ref * Fiber :=
  useMemo_formattedCoins coins f.

End Formatting.

End App.

(* ===================================================================== *)
(** ** The schema migration *)
(* ===================================================================== *)

Module Migration.

Inductive PolicyCommand : Type := FOR_SELECT | FOR_INSERT | FOR_UPDATE.

(** The statements the migration uses, with the parts that decide whether
    they succeed.  A table carries its column names, the tables its
    foreign keys reference and the column lists of its PRIMARY KEY and
    UNIQUE constraints. *)
Inductive Statement : Type :=
| CREATE_EXTENSION_IF_NOT_EXISTS (ext : string)
| CREATE_TABLE_IF_NOT_EXISTS (table : string) (columns : list string)
    (references : list string) (uniqueKeys : list (list string))
| CREATE_INDEX_IF_NOT_EXISTS (index table : string) (columns : list string)
| ENABLE_ROW_LEVEL_SECURITY (table : string)
| CREATE_POLICY (policy table : string) (cmd : PolicyCommand)
| CREATE_OR_REPLACE_FUNCTION (fn : string)
| CREATE_TRIGGER (trigger table fn : string)
| INSERT_ON_CONFLICT_DO_NOTHING (table : string) (columns : list string)
    (conflict : list string) (rows : list (list string))
| COMMENT_ON_TABLE (table : string)
| COMMENT_ON_COLUMN (table column : string).

Record Table : Type := mkTable {
  t_columns : list string;
  t_uniqueKeys : list (list string);
  t_rls : bool;
  t_rows : list (list (string * string))
}.

(** The catalogue.  [indexes] holds the indexes made by CREATE INDEX,
    each with its table and key columns; the unique keys of a table stay
    with the table. *)
Record Database : Type := mkDatabase {
  extensions : list string;
  tables : gmap string Table;
  indexes : gmap string (string * list string);
  policies : list (string * string * PolicyCommand);
  functions : list string;
  triggers : list (string * string)
}.

Definition empty : Database := mkDatabase [] ∅ ∅ [] [] [].

Definition mem (x : string) (l : list string) : bool :=
  existsb (String.eqb x) l.

Definition subset (xs l : list string) : bool := forallb (fun x => mem x l) xs.

Definition sameColumns (a b : list string) : bool := subset a b && subset b a.

Definition hasTable (db : Database) (t : string) : bool :=
  match tables db !! t with Some _ => true | None => false end.

Definition setTables (db : Database) (ts : gmap string Table) : Database :=
  mkDatabase (extensions db) ts (indexes db) (policies db) (functions db)
    (triggers db).

(** Two rows agree on every column of [key]. *)
Definition agreeOn (key : list string) (r1 r2 : list (string * string)) : bool :=
  forallb
    (fun c =>
       match JS.get c r1, JS.get c r2 with
       | Some v1, Some v2 => String.eqb v1 v2
       | _, _ => false
       end)
    key.

(** INSERT ... ON CONFLICT (key) DO NOTHING, row by row. *)
Fixpoint insertRows (key : list string) (new old : list (list (string * string)))
  : list (list (string * string)) :=
  match new with
  | [] => old
  | r :: rest =>
      if existsb (agreeOn key r) old
      then insertRows key rest old
      else insertRows key rest (old ++ [r])
  end.

(** Executing one statement; [None] is an error that aborts the
    migration. *)
Definition exec (s : Statement) (db : Database) : option Database :=
  match s with
  | CREATE_EXTENSION_IF_NOT_EXISTS e =>
      Some (if mem e (extensions db) then db
            else mkDatabase (e :: extensions db) (tables db) (indexes db)
                   (policies db) (functions db) (triggers db))
  | CREATE_TABLE_IF_NOT_EXISTS t cols refs uks =>
      if hasTable db t then Some db
      else if forallb (hasTable db) refs && forallb (fun k => subset k cols) uks
           then Some (setTables db (<[t := mkTable cols uks false []]> (tables db)))
           else None
  | CREATE_INDEX_IF_NOT_EXISTS i t cols =>
      match indexes db !! i with
      | Some _ => Some db
      | None =>
          match tables db !! t with
          | Some tb =>
              if subset cols (t_columns tb)
              then Some (mkDatabase (extensions db) (tables db)
                           (<[i := (t, cols)]> (indexes db))
                           (policies db) (functions db) (triggers db))
              else None
          | None => None
          end
      end
  | ENABLE_ROW_LEVEL_SECURITY t =>
      match tables db !! t with
      | Some tb =>
          Some (setTables db
                  (<[t := mkTable (t_columns tb) (t_uniqueKeys tb) true (t_rows tb)]>
                     (tables db)))
      | None => None
      end
  | CREATE_POLICY p t cmd =>
      if hasTable db t
         && negb (existsb (fun q => String.eqb (fst (fst q)) p
                                    && String.eqb (snd (fst q)) t)
                    (policies db))
      then Some (mkDatabase (extensions db) (tables db) (indexes db)
                   ((p, t, cmd) :: policies db) (functions db) (triggers db))
      else None
  | CREATE_OR_REPLACE_FUNCTION f =>
      Some (if mem f (functions db) then db
            else mkDatabase (extensions db) (tables db) (indexes db)
                   (policies db) (f :: functions db) (triggers db))
  | CREATE_TRIGGER g t f =>
      if hasTable db t && mem f (functions db)
         && negb (existsb (fun q => String.eqb (fst q) g && String.eqb (snd q) t)
                    (triggers db))
      then Some (mkDatabase (extensions db) (tables db) (indexes db)
                   (policies db) (functions db) ((g, t) :: triggers db))
      else None
  | INSERT_ON_CONFLICT_DO_NOTHING t cols conflict rows =>
      match tables db !! t with
      | Some tb =>
          if subset cols (t_columns tb)
             && existsb (sameColumns conflict) (t_uniqueKeys tb)
             && forallb (fun r => length r =? length cols)%nat rows
          then Some (setTables db
                       (<[t := mkTable (t_columns tb) (t_uniqueKeys tb) (t_rls tb)
                                 (insertRows conflict
                                    (map (combine cols) rows) (t_rows tb))]>
                          (tables db)))
          else None
      | None => None
      end
  | COMMENT_ON_TABLE t => if hasTable db t then Some db else None
  | COMMENT_ON_COLUMN t c =>
      match tables db !! t with
      | Some tb => if mem c (t_columns tb) then Some db else None
      | None => None
      end
  end.

(** The statements in order; the first error stops the run. *)
Fixpoint apply (script : list Statement) (db : Database) : option Database :=
  match script with
  | [] => Some db
  | s :: rest =>
      match exec s db with
      | Some db' => apply rest db'
      | None => None
      end
  end.

Definition coins_columns : list string :=
  [ "id"; "symbol"; "name"; "current_price"; "market_cap"; "volume_24h";
    "price_change_24h"; "price_change_percentage_24h"; "price_change_7d";
    "price_change_percentage_7d"; "all_time_high"; "all_time_high_date";
    "all_time_low"; "all_time_low_date"; "description"; "website_url";
    "image_url"; "sentiment_score"; "ai_index_value"; "last_ai_prediction";
    "is_active"; "last_updated"; "created_at" ].

Definition coin_price_history_columns : list string :=
  [ "id"; "coin_id"; "timestamp"; "open"; "high"; "low"; "close"; "volume";
    "ma_7"; "ma_25"; "ma_99"; "ema_12"; "ema_26"; "rsi"; "macd";
    "macd_signal"; "macd_histogram"; "created_at" ].

Definition coin_news_columns : list string :=
  [ "id"; "coin_id"; "title"; "content"; "source"; "url"; "author";
    "sentiment_score"; "sentiment_label"; "published_at"; "created_at" ].

Definition readAll : string := "Enable read access for all users".
Definition insertAuth : string := "Enable insert for authenticated users only".
Definition updateAuth : string := "Enable update for authenticated users only".

(** The migration file, statement by statement. *)
Definition create_coins_schema : list Statement :=
  [ CREATE_EXTENSION_IF_NOT_EXISTS "uuid-ossp";
    CREATE_TABLE_IF_NOT_EXISTS "coins" coins_columns [] [["id"]; ["symbol"]];
    CREATE_INDEX_IF_NOT_EXISTS "idx_coins_symbol" "coins" ["symbol"];
    CREATE_INDEX_IF_NOT_EXISTS "idx_coins_market_cap" "coins" ["market_cap"];
    CREATE_INDEX_IF_NOT_EXISTS "idx_coins_volume" "coins" ["volume_24h"];
    CREATE_INDEX_IF_NOT_EXISTS "idx_coins_last_updated" "coins" ["last_updated"];
    CREATE_INDEX_IF_NOT_EXISTS "idx_coins_active" "coins" ["is_active"];
    CREATE_TABLE_IF_NOT_EXISTS "coin_price_history" coin_price_history_columns
      ["coins"] [["id"]; ["coin_id"; "timestamp"]];
    CREATE_INDEX_IF_NOT_EXISTS "idx_price_history_coin_id" "coin_price_history"
      ["coin_id"];
    CREATE_INDEX_IF_NOT_EXISTS "idx_price_history_timestamp" "coin_price_history"
      ["timestamp"];
    CREATE_INDEX_IF_NOT_EXISTS "idx_price_history_coin_timestamp"
      "coin_price_history" ["coin_id"; "timestamp"];
    CREATE_TABLE_IF_NOT_EXISTS "coin_news" coin_news_columns ["coins"] [["id"]];
    CREATE_INDEX_IF_NOT_EXISTS "idx_news_coin_id" "coin_news" ["coin_id"];
    CREATE_INDEX_IF_NOT_EXISTS "idx_news_published" "coin_news" ["published_at"];
    CREATE_INDEX_IF_NOT_EXISTS "idx_news_sentiment" "coin_news" ["sentiment_score"];
    ENABLE_ROW_LEVEL_SECURITY "coins";
    ENABLE_ROW_LEVEL_SECURITY "coin_price_history";
    ENABLE_ROW_LEVEL_SECURITY "coin_news";
    CREATE_POLICY readAll "coins" FOR_SELECT;
    CREATE_POLICY readAll "coin_price_history" FOR_SELECT;
    CREATE_POLICY readAll "coin_news" FOR_SELECT;
    CREATE_POLICY insertAuth "coins" FOR_INSERT;
    CREATE_POLICY updateAuth "coins" FOR_UPDATE;
    CREATE_POLICY insertAuth "coin_price_history" FOR_INSERT;
    CREATE_POLICY updateAuth "coin_price_history" FOR_UPDATE;
    CREATE_POLICY insertAuth "coin_news" FOR_INSERT;
    CREATE_POLICY updateAuth "coin_news" FOR_UPDATE;
    CREATE_OR_REPLACE_FUNCTION "update_updated_at_column";
    CREATE_TRIGGER "update_coins_updated_at" "coins" "update_updated_at_column";
    INSERT_ON_CONFLICT_DO_NOTHING "coins" ["symbol"; "name"; "description"]
      ["symbol"]
      [ ["BTC-USD"; "Bitcoin";
         "Bitcoin is a decentralized cryptocurrency originally described in a 2008 whitepaper by a person, or group of people, using the alias Satoshi Nakamoto."];
        ["ETH-USD"; "Ethereum";
         "Ethereum is a decentralized open-source blockchain system that features its own cryptocurrency, Ether."];
        ["BNB-USD"; "Binance Coin";
         "Binance Coin is the cryptocurrency issued by Binance exchange and trades with the BNB symbol."];
        ["ADA-USD"; "Cardano";
         "Cardano is a public blockchain platform. It is open-source and decentralized, with consensus achieved using proof of stake."];
        ["SOL-USD"; "Solana";
         "Solana is a high-performance cryptocurrency blockchain which supports smart contracts and decentralized applications."] ];
    COMMENT_ON_TABLE "coins";
    COMMENT_ON_TABLE "coin_price_history";
    COMMENT_ON_TABLE "coin_news";
    COMMENT_ON_COLUMN "coins" "sentiment_score";
    COMMENT_ON_COLUMN "coins" "ai_index_value" ].

(** The PRIMARY KEY and UNIQUE constraints of all tables, each with its
    table. *)
Definition uniqueKeys (db : Database) : list (string * list string) :=
  concat (map (fun kv => map (pair (fst kv)) (t_uniqueKeys (snd kv)))
            (map_to_list (tables db))).

(** The names of the tables on which row-level security is enabled. *)
Definition rlsTables (db : Database) : list string :=
  map fst (List.filter (fun kv => t_rls (snd kv)) (map_to_list (tables db))).

End Migration.

(* ===================================================================== *)
(** ** The first revision of [db-test] *)
(* ===================================================================== *)

Module DbTestLegacy.
Import JS Http.

Definition available (env : Env) : Response :=
  mkResponse 200
    [("Content-Type", "application/json")]
    [("message", VString "Database connection available");
     ("timestamp", VString (timestamp env))].

Definition connectionFailed (error : Thrown) : Response :=
  mkResponse 500
    [("Content-Type", "application/json")]
    [("error", VString "Database connection failed");
     ("message", VString (message_or error "Unknown error"))].

(** The default export of the first revision: [console.error] receives the
    caught value itself. *)
Definition handler (req : Request) (context : Context) (env : Env)
  : Response * list (string * Thrown) :=
  match neon env with
  | None => (available env, [])
  | Some error => (connectionFailed error, [("Database error:", error)])
  end.

End DbTestLegacy.

(* ===================================================================== *)
(** ** Runs of the rate-limited function *)
(* ===================================================================== *)

Module Traffic.
Import JS RateLimit Http RateLimitedFunction.

(** [req.method === 'GET'] for an invocation. *)
Definition isGET (i : Invocation) : bool := String.eqb (method (inv_req i)) "GET".

(** Every counter in the map lies between 1 and 60. *)
Definition countsInRange (m : gmap string RateRecord) : Prop :=
  forall k r, m !! k = Some r -> 1 <= count r <= 60.

(** One object has every property of another, with the same value. *)
Definition extends {A : Type} (more less : list (string * A)) : Prop :=
  forall k v, JS.get k less = Some v -> JS.get k more = Some v.

End Traffic.

(* ===================================================================== *)
(** ** What the components render *)
(* ===================================================================== *)

Module Markup.

Local Unset Elimination Schemes.

(** A React element tree with the components expanded: text children as
    JSX yields them, host elements with their [className] (empty when the
    JSX gives none), and the keyed items of a rendered array. *)
Inductive Node : Type :=
| Text (s : string)
| Elem (tag className : string) (children : list Node)
| Keyed (key : string) (item : Node).

Local Set Elimination Schemes.

End Markup.

Module CoinCard.
Import Markup.

(** [interface CoinCardProps] *)
Record Props : Type := mkProps {
  name : string;
  upperSymbol : string;
  formattedPrice : string;
  formattedChange : string;
  isPositive : bool
}.

(** The function component wrapped by [memo]. *)
Definition render (p : Props) : Node :=
  Elem "div" "coin-card"
    [ Elem "div" "coin-info"
        [ Elem "h2" "" [Text (name p)];
          Elem "span" "symbol" [Text (upperSymbol p)] ];
      Elem "div" "coin-price"
        [ Elem "span" "price" [Text "$"; Text (formattedPrice p)];
          Elem "span" (if isPositive p then "change positive" else "change negative")
            [ Text (if isPositive p then "+" else "");
              Text (formattedChange p);
              Text "%" ] ] ].

(** The comparison function passed to [memo]: [true] lets React reuse the
    previous output. *)
Definition areEqual (prevProps nextProps : Props) : bool :=
  String.eqb (name prevProps) (name nextProps)
  && String.eqb (upperSymbol prevProps) (upperSymbol nextProps)
  && String.eqb (formattedPrice prevProps) (formattedPrice nextProps)
  && String.eqb (formattedChange prevProps) (formattedChange nextProps)
  && Bool.eqb (isPositive prevProps) (isPositive nextProps).

End CoinCard.

Module AppView.
Import Markup App.

(** The three [useState] cells of [App]. *)
Record State : Type := mkState {
  coins : list Coin;
  loading : bool;
  error : option string
}.

(** [useState([])], [useState(true)], [useState(null)] *)
Definition initialState : State := mkState [] true None.

(** The effect of one setter call on the state. *)
Definition update (u : Update) (s : State) : State :=
  match u with
  | setCoins cs => mkState cs (loading s) (error s)
  | setError msg => mkState (coins s) (loading s) (Some msg)
  | setLoading b => mkState (coins s) b (error s)
  end.

Fixpoint updates (us : list Update) (s : State) : State :=
  match us with
  | [] => s
  | u :: rest => updates rest (update u s)
  end.

(** [if (error)]: [null] and the empty string are falsy. *)
Definition truthy (e : option string) : bool :=
  match e with
  | Some EmptyString => false
  | Some _ => true
  | None => false
  end.

Definition loadingScreen : Node :=
  Elem "div" "loading" [Text "Loading crypto data..."].

Definition errorScreen (e : option string) : Node :=
  Elem "div" "error" [Text (default "" e)].

(** The page around the coin list. *)
Definition shell (items : list Node) : Node :=
  Elem "div" "app"
    [ Elem "header" "header"
        [ Elem "h1" "" [Text "CoinScribe"];
          Elem "p" "" [Text "Crypto tracker with AI-powered news summarization"] ];
      Elem "main" "main" [Elem "div" "coin-list" items];
      Elem "footer" "footer"
        [ Elem "p" "" [Text "Powered by Netlify | Data refreshes every 60 seconds"] ] ].

(** The props [App] passes to [CoinCard] for one formatted coin. *)
Definition propsOf (fc : FormattedCoin) : CoinCard.Props :=
  CoinCard.mkProps (name (coin fc)) (upperSymbol fc) (formattedPrice fc)
    (formattedChange fc) (isPositive fc).

Section Views.
Variable toLocaleString : Q -> string.
Variable toFixed2 : Q -> string.
Variable toUpperCase : string -> string.

(** What [App] returns, [formattedCoins] being the formatted [coins]. *)
Definition view (s : State) : Node :=
  if loading s then loadingScreen
  else if truthy (error s) then errorScreen (error s)
  else shell
         (map (fun fc => Keyed (id (coin fc)) (CoinCard.render (propsOf fc)))
            (map (formatCoin toLocaleString toFixed2 toUpperCase) (coins s))).

(** What the earlier [App] returns, with the card written inline and the
    formatting done in the JSX. *)
Definition legacyView (s : State) : Node :=
  if loading s then loadingScreen
  else if truthy (error s) then errorScreen (error s)
  else shell
         (map (fun c : Coin =>
                 Keyed (id c)
                   (Elem "div" "coin-card"
                      [ Elem "div" "coin-info"
                          [ Elem "h2" "" [Text (name c)];
                            Elem "span" "symbol" [Text (toUpperCase (symbol c))] ];
                        Elem "div" "coin-price"
                          [ Elem "span" "price"
                              [Text "$"; Text (toLocaleString (current_price c))];
                            Elem "span"
                              (if Qle_bool 0 (price_change_percentage_24h c)
                               then "change positive" else "change negative")
                              [ Text (if Qle_bool 0 (price_change_percentage_24h c)
                                      then "+" else "");
                                Text (toFixed2 (price_change_percentage_24h c));
                                Text "%" ] ] ]))
            (coins s)).

(** Successive renders with the given [coins] references; the hook state
    after the last one. *)
Definition rerender (refs : list ref) (f : Fiber) : Fiber :=
  fold_left (fun f' c => snd (render toLocaleString toFixed2 toUpperCase c f'))
    refs f.

End Views.

End AppView.

(* ===================================================================== *)
(** ** What the statements of a migration leave in the catalogue *)
(* ===================================================================== *)

Module Catalogue.
Import Migration.

Definition hasPolicy (db : Database) (p t : string) : bool :=
  existsb (fun q => String.eqb (fst (fst q)) p && String.eqb (snd (fst q)) t)
    (policies db).

Definition hasTrigger (db : Database) (g t : string) : bool :=
  existsb (fun q => String.eqb (fst q) g && String.eqb (snd q) t) (triggers db).

(** What a statement is there to bring about, as a condition on the
    catalogue: the object exists, row-level security is on, each row of an
    INSERT has a row in the table that agrees with it on the conflict
    columns (when these are among the inserted columns). *)
Definition established (s : Statement) (db : Database) : Prop :=
  match s with
  | CREATE_EXTENSION_IF_NOT_EXISTS e => mem e (extensions db) = true
  | CREATE_TABLE_IF_NOT_EXISTS t _ _ _ => hasTable db t = true
  | CREATE_INDEX_IF_NOT_EXISTS i _ _ => is_Some (indexes db !! i)
  | ENABLE_ROW_LEVEL_SECURITY t =>
      exists tb, tables db !! t = Some tb /\ t_rls tb = true
  | CREATE_POLICY p t _ => hasPolicy db p t = true
  | CREATE_OR_REPLACE_FUNCTION f => mem f (functions db) = true
  | CREATE_TRIGGER g t _ => hasTrigger db g t = true
  | INSERT_ON_CONFLICT_DO_NOTHING t cols conflict rows =>
      subset conflict cols = true ->
      exists tb, tables db !! t = Some tb /\
        forall r, In r rows ->
          exists o, In o (t_rows tb) /\ agreeOn conflict (combine cols r) o = true
  | COMMENT_ON_TABLE t => hasTable db t = true
  | COMMENT_ON_COLUMN t _ => hasTable db t = true
  end.

(** One catalogue has everything another has: no object is gone, no
    row-level security switched off, no row removed. *)
Definition keeps (db db' : Database) : Prop :=
  (forall e, mem e (extensions db) = true -> mem e (extensions db') = true) /\
  (forall t tb, tables db !! t = Some tb ->
     exists tb', tables db' !! t = Some tb' /\
       (t_rls tb = true -> t_rls tb' = true) /\
       (forall o, In o (t_rows tb) -> In o (t_rows tb'))) /\
  (forall i, is_Some (indexes db !! i) -> is_Some (indexes db' !! i)) /\
  (forall p t, hasPolicy db p t = true -> hasPolicy db' p t = true) /\
  (forall f, mem f (functions db) = true -> mem f (functions db') = true) /\
  (forall g t, hasTrigger db g t = true -> hasTrigger db' g t = true).

End Catalogue.

(* ===================================================================== *)
(** ** Concrete requests, traffic and renders used as test inputs *)
(* ===================================================================== *)

Module Samples.
Import JS RateLimit Http.

Definition getRequest : Request := mkRequest "GET" [].

Definition visitor : Context := mkContext (Some "203.0.113.7").

(** An environment in which [neon()] returns a client. *)
Definition envAt (t : Z) : Env :=
  mkEnv t t "2025-12-10T21:00:00.000Z" "2025-12-10T21:00:00.000Z" "0.12ms" None.

Definition refused : Thrown :=
  ThrownError "connect ECONNREFUSED"
    (Some "Error: connect ECONNREFUSED at getSql (db-test.ts:9)").

(** An environment in which [neon()] throws [refused]. *)
Definition failingEnv : Env :=
  mkEnv 1000 1000 "2025-12-10T21:00:00.000Z" "2025-12-10T21:00:00.001Z" "0.12ms"
    (Some refused).

(** One visit at 1000 ms and sixty more half a minute later. *)
Definition firstVisit : RateLimitedFunction.Invocation :=
  RateLimitedFunction.mkInvocation getRequest visitor (envAt 1000).

Definition laterVisits : list RateLimitedFunction.Invocation :=
  repeat (RateLimitedFunction.mkInvocation getRequest visitor (envAt 31000)) 60.



(** More entries than the sweep threshold, all with a used-up window that
    ends at 100000 ms; the keys are the decimal numerals from 0. *)
Definition crowd : gmap string RateRecord :=
  list_to_map
    (map (fun i => (String_of_int (Z.of_nat i), mkRecord 60 100000))
       (seq 0 (Z.to_nat 10001))).



(** A fiber before its first render, with two distinct arrays holding the
    same coins. *)
Definition freshFiber : App.Fiber :=
  App.mkFiber None
    (App.mkHeap {[ 0%nat := App.mockCoins; 1%nat := App.mockCoins ]} ∅ 2)
    0.

(** Stand-ins for the runtime's number and string formatting. *)
Definition plainNumber (q : Q) : string :=
  JS.String_of_int (Qnum q / Z.pos (Qden q)).

Definition sameString (s : string) : string := s.

(** Mount, unmount, and a late continuation and clean-up. *)
Definition lateSchedule : list App.Action :=
  [App.Resume None; App.Cleanup; App.Resume None; App.Cleanup].

End Samples.

(* ===================================================================== *)
(** ** Further test inputs *)
(* ===================================================================== *)

Module MoreSamples.
Import JS RateLimit Http Samples.

(** A hundred calls half a minute after the window opened. *)
Definition hundredCalls : list Z := repeat 31000 100.

(** A visit on which [neon()] throws. *)
Definition failingVisit : RateLimitedFunction.Invocation :=
  RateLimitedFunction.mkInvocation getRequest visitor failingEnv.

Definition sixtyFailingVisits : list RateLimitedFunction.Invocation :=
  repeat failingVisit 60.

(** Fifty-nine visits after the first, inside its window. *)
Definition fiftyNineVisits : list RateLimitedFunction.Invocation :=
  repeat (RateLimitedFunction.mkInvocation getRequest visitor (envAt 31000)) 59.

(** Traffic of two clients. *)
Definition twoClients : list (string * Z) :=
  [("a", 0); ("b", 5); ("a", 10); ("a", 70000)].

(** A query with another parameter before [limit] and a second [limit]. *)
Definition pagedQuery : list (string * string) :=
  [("page", "2"); ("limit", String_of_int 250); ("limit", "5")].

(** The catalogue the migration leaves on the empty database. *)
Definition migrated : Migration.Database :=
  default Migration.empty (Migration.apply Migration.create_coins_schema Migration.empty).

End MoreSamples.

(* ===================================================================== *)
(** ** Facts about the rate limiter *)
(* ===================================================================== *)

Module RateLimitFacts.
Import RateLimit.

Ltac zbool :=
  repeat match goal with
    | H : (_ <? _) = true |- _ => apply Z.ltb_lt in H
    | H : (_ <? _) = false |- _ => apply Z.ltb_ge in H
    | |- (_ <? _) = true => apply Z.ltb_lt
    | |- (_ <? _) = false => apply Z.ltb_ge
    end.

(** What the sweep loop leaves under a key. *)
Lemma sweepLoop_lookup (cutoff : Z) (m : gmap string RateRecord) (k : string) :
  sweepLoop cutoff m !! k =
  match m !! k with
  | Some r => if stale cutoff r then None else Some r
  | None => None
  end.
Proof.
  unfold sweepLoop. rewrite map_lookup_filter.
  destruct (m !! k) as [r|]; simpl; [|reflexivity].
  destruct (stale cutoff r) eqn:E.
  - rewrite option_guard_False; [reflexivity | congruence].
  - rewrite option_guard_True; [reflexivity | reflexivity].
Qed.

(** What the clean-up block leaves under a key. *)
Lemma cleanup_lookup (now w : Z) (m : gmap string RateRecord) (k : string) :
  cleanup now w m !! k =
  if sweepThreshold <? Z.of_nat (size m)
  then match m !! k with
       | Some r => if resetTime r <? now - w then None else Some r
       | None => None
       end
  else m !! k.
Proof.
  unfold cleanup. destruct (sweepThreshold <? Z.of_nat (size m)); [|reflexivity].
  apply sweepLoop_lookup.
Qed.

(** A record whose window has not closed survives the clean-up block. *)
Lemma cleanup_keeps_active (now w : Z) (m : gmap string RateRecord)
    (k : string) (r : RateRecord) :
  0 <= w -> m !! k = Some r -> now <= resetTime r ->
  cleanup now w m !! k = Some r.
Proof.
  intros Hw Hk Hact. rewrite cleanup_lookup, Hk.
  destruct (sweepThreshold <? Z.of_nat (size m)); [|reflexivity].
  destruct (resetTime r <? now - w) eqn:E; [zbool; lia | reflexivity].
Qed.

(** The clean-up block only ever removes entries. *)
Lemma cleanup_lookup_cases (now w : Z) (m : gmap string RateRecord) (k : string) :
  cleanup now w m !! k = m !! k \/
  (cleanup now w m !! k = None /\
   exists r, m !! k = Some r /\ resetTime r < now - w).
Proof.
  rewrite cleanup_lookup.
  destruct (sweepThreshold <? Z.of_nat (size m)); [|left; reflexivity].
  destruct (m !! k) as [r|]; [|left; reflexivity].
  destruct (resetTime r <? now - w) eqn:E; [|left; reflexivity].
  right. split; [reflexivity|]. exists r. split; [reflexivity | zbool; lia].
Qed.

(** The caller's own entry: answer and record are those of [clientStep]. *)
Lemma check_self (ip : string) (now : Z) (m : gmap string RateRecord) :
  fst (checkRateLimit_default ip now m) = fst (clientStep (m !! ip) now) /\
  snd (checkRateLimit_default ip now m) !! ip
    = Some (snd (clientStep (m !! ip) now)).
Proof.
  unfold checkRateLimit_default, checkRateLimit, clientStep.
  destruct (m !! ip) as [r|] eqn:Hr; simpl.
  - destruct (resetTime r <? now) eqn:E1; simpl.
    + split; [reflexivity | apply lookup_insert_eq].
    + assert (Hkeep : cleanup now 60000 m !! ip = Some r).
      { apply cleanup_keeps_active; [lia | assumption | zbool; lia]. }
      destruct (count r <? 60); simpl.
      * split; [reflexivity|]. rewrite lookup_alter_eq, Hkeep. reflexivity.
      * split; [reflexivity | assumption].
  - split; [reflexivity | apply lookup_insert_eq].
Qed.

(** Every other entry: exactly what the clean-up block leaves. *)
Lemma check_other (ip k : string) (now : Z) (m : gmap string RateRecord) :
  k <> ip ->
  snd (checkRateLimit_default ip now m) !! k = cleanup now 60000 m !! k.
Proof.
  intros Hne. unfold checkRateLimit_default, checkRateLimit.
  destruct (m !! ip) as [r|]; simpl.
  - destruct (resetTime r <? now); simpl.
    + apply lookup_insert_ne. congruence.
    + destruct (count r <? 60); simpl; [|reflexivity].
      apply lookup_alter_ne. congruence.
  - apply lookup_insert_ne. congruence.
Qed.

Lemma live_cleanup (now : Z) (m : gmap string RateRecord) (k : string) :
  live now (cleanup now 60000 m !! k) = live now (m !! k).
Proof.
  destruct (cleanup_lookup_cases now 60000 m k) as [-> | (-> & r & -> & Hlt)];
    [reflexivity|].
  simpl. destruct (resetTime r <? now) eqn:E; [reflexivity | zbool; lia].
Qed.

Lemma live_mono (t t' : Z) (o1 o2 : option RateRecord) :
  t <= t' -> live t o1 = live t o2 -> live t' o1 = live t' o2.
Proof.
  intros Hle. unfold live.
  destruct o1 as [r1|], o2 as [r2|]; try reflexivity;
    repeat match goal with
      | |- context [?a <? ?b] => destruct (a <? b) eqn:?
      end;
    intros H; try congruence; try reflexivity; zbool; try lia;
    inversion H; subst; zbool; lia.
Qed.

Lemma clientStep_live (t now : Z) (o1 o2 : option RateRecord) :
  t <= now -> live t o1 = live t o2 -> clientStep o1 now = clientStep o2 now.
Proof.
  intros Hle. unfold live, clientStep.
  destruct o1 as [r1|], o2 as [r2|]; try reflexivity;
    repeat match goal with
      | |- context [resetTime ?r <? ?b] => destruct (resetTime r <? b) eqn:?
      end;
    intros H; try congruence; try reflexivity; zbool; try lia.
  inversion H. reflexivity.
Qed.

(** Along a forward-running clock, the answers a client gets in any
    traffic are those of its own record run on its own clock readings. *)
Lemma answersFor_clientRun (ip : string) (tr : list (string * Z)) :
  forall (m : gmap string RateRecord) (o : option RateRecord) (t : Z),
    clockFrom t tr ->
    live t (m !! ip) = live t o ->
    answersFor ip tr m = clientRun o (timesOf ip tr).
Proof.
  induction tr as [|[ip' now] rest IH]; intros m o t Hclock Hlive; [reflexivity|].
  destruct Hclock as [Hle Hrest].
  unfold timesOf in *. simpl.
  destruct (checkRateLimit_default ip' now m) as [ok m1] eqn:Hcall.
  destruct (String.eqb ip' ip) eqn:Heq; simpl.
  - apply String.eqb_eq in Heq. subst ip'.
    destruct (check_self ip now m) as [Hans Hrec].
    rewrite Hcall in Hans, Hrec. simpl in Hans, Hrec.
    rewrite <- (clientStep_live t now (m !! ip) o Hle Hlive).
    destruct (clientStep (m !! ip) now) as [ok' r'] eqn:Hstep.
    simpl in Hans, Hrec. subst ok'. f_equal.
    apply (IH m1 (Some r') now Hrest). rewrite Hrec. reflexivity.
  - apply String.eqb_neq in Heq.
    apply (IH m1 o now Hrest).
    assert (Hoth := check_other ip' ip now m (not_eq_sym Heq)).
    rewrite Hcall in Hoth. simpl in Hoth. rewrite Hoth, live_cleanup.
    apply (live_mono t now); assumption.
Qed.

(** The forward-running clock matters.  With the map above the threshold, a
    call of another client at 200001 ms sweeps the used-up record of client
    ["5"]; if the clock is then set back to 50000 ms, client ["5"] is let
    through, while without the other client's call it is turned away. *)
Remark clock_set_back_lets_sweep_show :
  answersFor "5" [("5", 50000)] Samples.crowd = [false] /\
  answersFor "5" [("zz", 200001); ("5", 50000)] Samples.crowd = [true].
Proof. split; vm_compute; reflexivity. Qed.

End RateLimitFacts.

(* ===================================================================== *)
(** ** Facts about the rate-limited function *)
(* ===================================================================== *)

Module HandlerFacts.
Import JS RateLimit Http RateLimitedFunction RateLimitFacts.

(** Consecutive calls of one client follow that client's own record. *)
Lemma calls_one_client (ip : string) (times : list Z) :
  forall m : gmap string RateRecord,
    fst (calls (map (fun t => (ip, t)) times) m) = clientRun (m !! ip) times.
Proof.
  induction times as [|t ts IH]; intros m; [reflexivity|].
  simpl. destruct (check_self ip t m) as [Hans Hrec].
  destruct (checkRateLimit_default ip t m) as [ok m1].
  destruct (clientStep (m !! ip) t) as [ok' r'].
  simpl in Hans, Hrec. subst ok'.
  specialize (IH m1). rewrite Hrec in IH.
  destruct (calls (map (fun t0 => (ip, t0)) ts) m1) as [oks m2].
  simpl in *. rewrite IH. reflexivity.
Qed.

(** Inside one window the [k]-th further call is allowed exactly while the
    counter is below 60. *)
Lemma clientRun_in_window (R : Z) (times : list Z) :
  forall c : Z,
    Forall (fun t => t <= R) times ->
    clientRun (Some (mkRecord c R)) times
    = map (fun k => c + Z.of_nat k <? 60) (seq 0 (length times)).
Proof.
  induction times as [|t ts IH]; intros c Hall; [reflexivity|].
  inversion Hall as [|? ? Ht Hts]; subst.
  cbn [clientRun clientStep resetTime count length seq map].
  replace (R <? t) with false by (symmetry; apply Z.ltb_ge; lia).
  replace (c + Z.of_nat 0) with c by lia.
  rewrite <- seq_shift, map_map.
  destruct (c <? 60) eqn:Hc.
  - unfold incr. cbn [count resetTime]. rewrite (IH (c + 1) Hts).
    f_equal. apply map_ext. intros k. f_equal. lia.
  - rewrite (IH c Hts). f_equal.
    apply map_ext_in. intros k _.
    apply Z.ltb_ge in Hc.
    transitivity false; [apply Z.ltb_ge | symmetry; apply Z.ltb_ge]; lia.
Qed.

(** A client whose window opens at [opened] and who calls sixty more times
    before the window ends is let through sixty times and then turned away. *)
Lemma clientRun_fresh_window (o : option RateRecord) (opened : Z) (later : list Z) :
  (o = None \/ exists r, o = Some r /\ resetTime r < opened) ->
  length later = 60%nat ->
  Forall (fun t => t <= opened + 60000) later ->
  clientRun o (opened :: later) = (repeat true 60 ++ [false])%list.
Proof.
  intros Hfresh Hlen Hwin. cbn [clientRun].
  assert (Hstep : clientStep o opened = (true, mkRecord 1 (opened + 60000))).
  { destruct Hfresh as [-> | (r & -> & Hlt)]; [reflexivity|].
    unfold clientStep. apply Z.ltb_lt in Hlt. rewrite Hlt. reflexivity. }
  rewrite Hstep, (clientRun_in_window _ _ _ Hwin), Hlen. reflexivity.
Qed.

(** The same among the calls of other clients, the clock not running
    backwards. *)
Lemma sixty_then_turned_away_among_others
    (ip : string) (traffic : list (string * Z)) (m : gmap string RateRecord)
    (t opened : Z) (later : list Z) :
  clockFrom t traffic ->
  timesOf ip traffic = opened :: later ->
  (m !! ip = None \/ exists r, m !! ip = Some r /\ resetTime r < opened) ->
  length later = 60%nat ->
  Forall (fun u => u <= opened + 60000) later ->
  answersFor ip traffic m = (repeat true 60 ++ [false])%list.
Proof.
  intros Hclock Htimes Hfresh Hlen Hwin.
  rewrite (answersFor_clientRun ip traffic m (m !! ip) t Hclock eq_refl), Htimes.
  apply clientRun_fresh_window; assumption.
Qed.

(** A GET request served while [neon()] does not throw: the status and
    the [Retry-After] header follow the limiter's answer, and the map is
    the one the limiter leaves. *)
Lemma handler_get (req : Request) (context : Context) (env : Env) (st : State) :
  method req = "GET" -> neon env = None ->
  let clientIp := or_string (ip context) "unknown" in
  let ok := fst (checkRateLimit_default clientIp (now env) (rateLimitMap st)) in
  let resp := fst (fst (handler req context env st)) in
  status resp = (if ok then 200 else 429) /\
  JS.get "Retry-After" (headers resp) = (if ok then None else Some "60") /\
  rateLimitMap (snd (handler req context env st))
    = snd (checkRateLimit_default clientIp (now env) (rateLimitMap st)).
Proof.
  intros Hm Hn. unfold handler. rewrite Hm. simpl.
  destruct (checkRateLimit_default (or_string (ip context) "unknown")
              (now env) (rateLimitMap st)) as [ok m1].
  destruct ok; simpl.
  - unfold getSql. simpl. destruct (cachedSql st); simpl.
    + repeat split.
    + rewrite Hn. simpl. repeat split.
  - repeat split.
Qed.

(** Responses of a run of GET requests of one client, read off the
    limiter's answers. *)
Lemma serve_one_client (clientIp : string) (invs : list Invocation) :
  forall st : State,
    Forall (fun i => method (inv_req i) = "GET" /\ clientOf i = clientIp
                     /\ neon (inv_env i) = None) invs ->
    let oks := fst (calls (map (fun i => (clientIp, now (inv_env i))) invs)
                      (rateLimitMap st)) in
    map status (fst (serve invs st))
      = map (fun ok : bool => if ok then 200 else 429) oks /\
    map (fun r => JS.get "Retry-After" (headers r)) (fst (serve invs st))
      = map (fun ok : bool => if ok then None else Some "60") oks.
Proof.
  induction invs as [|i rest IH]; intros st Hall; [split; reflexivity|].
  inversion Hall as [|? ? (Hm & Hc & Hn) Hrest]; subst.
  cbn [serve map calls].
  destruct (handler_get (inv_req i) (inv_context i) (inv_env i) st Hm Hn)
    as (Hst & Hra & Hmap).
  fold (clientOf i) in Hst, Hra, Hmap.
  destruct (handler (inv_req i) (inv_context i) (inv_env i) st)
    as [[resp lg] st1].
  destruct (checkRateLimit_default (clientOf i) (now (inv_env i))
              (rateLimitMap st)) as [ok m1].
  cbn [fst snd] in Hst, Hra, Hmap.
  specialize (IH st1 Hrest). rewrite Hmap in IH. cbn zeta in IH.
  destruct IH as [IH1 IH2].
  destruct (serve rest st1) as [resps st2].
  destruct (calls (map (fun i0 => (clientOf i, now (inv_env i0))) rest) m1)
    as [oks m2].
  cbn [fst snd map] in *. rewrite Hst, Hra, IH1, IH2. split; reflexivity.
Qed.

End HandlerFacts.

(* ===================================================================== *)
(** ** Properties of the functions, the component and the migration *)
(* ===================================================================== *)

Import JS RateLimit Http.

(** C1.  One client, one window.  A GET request of a client opens a window
    (the client has no record, or its record's window has closed) and sixty
    more GET requests of that client follow, none with a clock reading past
    the window's end.  While [neon()] does not throw, the first 60 of these
    61 requests are answered 200 and the 61st is answered 429 with
    [Retry-After: 60].  Underneath, [checkRateLimit] answers true to calls 1
    to 60 and false to call 61. *)
Theorem first_sixty_pass_then_429
    (clientIp : string) (first : RateLimitedFunction.Invocation)
    (rest : list RateLimitedFunction.Invocation)
    (st : RateLimitedFunction.State) :
  let invs := first :: rest in
  let opened := now (RateLimitedFunction.inv_env first) in
  length rest = 60%nat ->
  Forall (fun i => method (RateLimitedFunction.inv_req i) = "GET"
                   /\ RateLimitedFunction.clientOf i = clientIp
                   /\ neon (RateLimitedFunction.inv_env i) = None) invs ->
  Forall (fun i => now (RateLimitedFunction.inv_env i) <= opened + 60000) rest ->
  (RateLimitedFunction.rateLimitMap st !! clientIp = None \/
   exists r, RateLimitedFunction.rateLimitMap st !! clientIp = Some r
             /\ resetTime r < opened) ->
  map status (fst (RateLimitedFunction.serve invs st))
    = (repeat 200 60 ++ [429])%list /\
  map (fun r => JS.get "Retry-After" (headers r))
      (fst (RateLimitedFunction.serve invs st))
    = (repeat None 60 ++ [Some "60"])%list /\
  fst (calls (map (fun i => (clientIp, now (RateLimitedFunction.inv_env i))) invs)
         (RateLimitedFunction.rateLimitMap st))
    = (repeat true 60 ++ [false])%list.
Proof.
  intros invs opened Hlen Hall Hwin Hfresh.
  assert (Hoks :
    fst (calls (map (fun i => (clientIp, now (RateLimitedFunction.inv_env i))) invs)
           (RateLimitedFunction.rateLimitMap st))
    = (repeat true 60 ++ [false])%list).
  { rewrite <- (map_map (fun i => now (RateLimitedFunction.inv_env i))
                        (fun t => (clientIp, t))).
    rewrite HandlerFacts.calls_one_client.
    unfold invs. cbn [map]. fold opened.
    apply HandlerFacts.clientRun_fresh_window.
    - exact Hfresh.
    - rewrite length_map. exact Hlen.
    - apply Forall_map. exact Hwin. }
  destruct (HandlerFacts.serve_one_client clientIp invs st Hall) as [Hst Hra].
  rewrite Hoks in Hst, Hra.
  repeat split; assumption.
Qed.

(** Whenever [parseInt] yields a number, the clamp lands in [1,100]; with no
    [limit] parameter, or an empty one, the limit is 10. *)
Lemma effectiveLimit_of_number (req : Request) (n : Z) :
  parseInt (or_string (searchParams_get "limit" req) "10") = Num n ->
  exists k, RateLimitedFunction.effectiveLimit req = Num k /\ 1 <= k <= 100.
Proof.
  intros H. unfold RateLimitedFunction.effectiveLimit. rewrite H. simpl.
  eexists. split; [reflexivity | lia].
Qed.

Lemma effectiveLimit_default (req : Request) :
  searchParams_get "limit" req = None \/ searchParams_get "limit" req = Some "" ->
  RateLimitedFunction.effectiveLimit req = Num 10.
Proof.
  intros [H | H]; unfold RateLimitedFunction.effectiveLimit; rewrite H; reflexivity.
Qed.

(** C2.  The effective [limit] is meant to lie in [1,100] for every value of
    the query parameter.  For [?limit=abc] it does not: [parseInt] yields
    [NaN], which passes through [Math.max] and [Math.min], and the request
    is still answered 200 with that [limit] in its body. *)
Theorem limit_abc_is_NaN (context : Context) (t t' : Z) (ts tsl rt : string) :
  let req := mkRequest "GET" [("limit", "abc")] in
  let out := RateLimitedFunction.handler req context (mkEnv t t' ts tsl rt None)
               RateLimitedFunction.initial in
  RateLimitedFunction.effectiveLimit req = NaN /\
  status (fst (fst out)) = 200 /\
  JS.get "limit" (body (fst (fst out))) = Some (VNumber NaN).
Proof.
  cbn zeta. split; [reflexivity|].
  unfold RateLimitedFunction.handler.
  change (negb (method (mkRequest "GET" [("limit", "abc")]) =? "GET")%string)
    with false.
  cbv iota.
  set (clientIp := or_string (ip context) "unknown").
  destruct (RateLimitFacts.check_self clientIp t ∅) as [Hans _].
  rewrite lookup_empty in Hans. cbn [clientStep fst] in Hans.
  cbn [RateLimitedFunction.rateLimitMap RateLimitedFunction.initial now].
  destruct (checkRateLimit_default clientIp t ∅) as [ok m1].
  cbn [fst] in Hans. subst ok. cbn [negb].
  split; reflexivity.
Qed.

(** C5.  The clamp on the three inputs the specification names. *)
Theorem limit_clamp_examples :
  RateLimitedFunction.effectiveLimit (mkRequest "GET" [("limit", "0")]) = Num 1 /\
  RateLimitedFunction.effectiveLimit (mkRequest "GET" [("limit", "500")]) = Num 100 /\
  RateLimitedFunction.effectiveLimit (mkRequest "GET" [("limit", "42")]) = Num 42.
Proof. repeat split; reflexivity. Qed.

(** The rate-limited function turns away every method other than GET with
    405 and a JSON error body, before touching any state. *)
Lemma rate_limited_rejects_non_get (req : Request) (context : Context) (env : Env)
    (st : RateLimitedFunction.State) :
  method req <> "GET" ->
  RateLimitedFunction.handler req context env st
    = (RateLimitedFunction.methodNotAllowed, [], st).
Proof.
  intros Hne. unfold RateLimitedFunction.handler.
  destruct (String.eqb_spec (method req) "GET") as [Heq | _]; [contradiction|].
  reflexivity.
Qed.

(** Every response of either function is a 200, or a 405, 429 or 500 whose
    body carries an [error] property. *)
Lemma response_statuses (req : Request) (context : Context) (env : Env)
    (st : RateLimitedFunction.State) :
  let ok (r : Response) :=
    status r = 200 \/
    ((status r = 405 \/ status r = 429 \/ status r = 500)
     /\ exists msg, JS.get "error" (body r) = Some (VString msg)) in
  ok (fst (fst (RateLimitedFunction.handler req context env st))) /\
  ok (fst (DbTest.handler req context env)).
Proof.
  cbn zeta. split.
  - unfold RateLimitedFunction.handler.
    destruct (negb (method req =? "GET")%string).
    { right. split; [tauto | eexists; reflexivity]. }
    destruct (checkRateLimit_default _ _ _) as [ok m1].
    destruct ok; cbn [negb].
    + destruct (RateLimitedFunction.getSql env _) as [st2 | e].
      * left. reflexivity.
      * right. split; [tauto | eexists; reflexivity].
    + right. split; [tauto | eexists; reflexivity].
  - unfold DbTest.handler. destruct (neon env).
    + right. split; [tauto | eexists; reflexivity].
    + left. reflexivity.
Qed.

(** C3.  Both functions are meant to answer 405 to anything but GET.  The
    [db-test] function never reads the request: a POST is answered 200. *)
Theorem db_test_answers_post_200 (context : Context) (t t' : Z) (ts tsl rt : string) :
  let out := DbTest.handler (mkRequest "POST" []) context (mkEnv t t' ts tsl rt None) in
  status (fst out) = 200 /\
  JS.get "error" (body (fst out)) = None.
Proof. split; reflexivity. Qed.




(* ===================================================================== *)
(** ** Facts about the component *)
(* ===================================================================== *)

Module AppFacts.
Import App.

(** Once the flag is set, no schedule produces an update. *)
Lemma run_aborted_quiet (schedule : list Action) :
  Forall (fun e => isUpdate e = false) (run schedule true).
Proof.
  induction schedule as [|a rest IH]; [constructor|].
  destruct a as [thrown|]; cbn [run step].
  - destruct thrown; exact IH.
  - constructor; [reflexivity | exact IH].
Qed.

(** Splitting a concatenation at an element its first part lacks. *)
Lemma split_past_updates (l1 l2 before after : list Event) :
  Forall (fun e => isUpdate e = true) l1 ->
  (l1 ++ l2 = before ++ Aborted :: after)%list ->
  exists before', (l2 = before' ++ Aborted :: after)%list.
Proof.
  revert before. induction l1 as [|e l1 IH]; intros before Hupd Heq.
  - exists before. exact Heq.
  - inversion Hupd as [|? ? He Hl1]; subst.
    destruct before as [|b before']; simpl in Heq.
    + inversion Heq; subst. discriminate He.
    + inversion Heq; subst. eapply IH; eassumption.
Qed.

Lemma fetchCoins_updates (thrown : option JS.Thrown) (aborted : bool) :
  Forall (fun e => isUpdate e = true) (map Updated (fetchCoins thrown aborted)).
Proof.
  destruct thrown, aborted; cbn; repeat constructor.
Qed.

Lemma quiet_after_abort (schedule : list Action) :
  forall (aborted : bool) (before after : list Event),
    (run schedule aborted = before ++ Aborted :: after)%list ->
    Forall (fun e => isUpdate e = false) after.
Proof.
  induction schedule as [|a rest IH]; intros aborted before after Heq.
  - destruct before; discriminate Heq.
  - destruct a as [thrown|]; cbn [run step] in Heq.
    + destruct (split_past_updates _ _ _ _ (fetchCoins_updates thrown aborted) Heq)
        as [before' Hrest].
      exact (IH aborted before' after Hrest).
    + assert (Hq := run_aborted_quiet rest).
      destruct before as [|b before']; simpl in Heq.
      * injection Heq as Hrun. rewrite <- Hrun. exact Hq.
      * injection Heq as Hb Hrun. rewrite Hrun in Hq.
        apply Forall_app in Hq. destruct Hq as [_ Hq].
        inversion Hq; assumption.
Qed.

(** After a render with [coins], the memo cell holds [coins] and the
    reference that render returned. *)
Lemma render_fills_cell (toLocaleString toFixed2 : Q -> string)
    (toUpperCase : string -> string) (coins : ref) (f : Fiber) :
  memoCell (snd (render toLocaleString toFixed2 toUpperCase coins f))
  = Some (coins, fst (render toLocaleString toFixed2 toUpperCase coins f)).
Proof.
  unfold render, useMemo_formattedCoins.
  destruct (memoCell f) as [[dep value]|] eqn:Hcell; [|reflexivity].
  destruct (Nat.eqb_spec dep coins) as [-> | Hne]; [|reflexivity].
  simpl. exact Hcell.
Qed.

End AppFacts.

Import App.

(** C7.  Rendering again with the same [coins] reference returns the same
    [formattedCoins] reference and leaves the hook state, with its count of
    per-coin formatting runs, as it was; a render with another reference
    runs the formatting once per coin and returns a fresh array.  So the
    formatting runs again only when the reference has changed. *)
Theorem formattedCoins_recomputed_only_on_new_reference
    (toLocaleString toFixed2 : Q -> string) (toUpperCase : string -> string)
    (coins : ref) (f : Fiber) :
  let render := render toLocaleString toFixed2 toUpperCase in
  let first := render coins f in
  render coins (snd first) = (fst first, snd first) /\
  (forall coins',
     coins' <> coins ->
     fst (render coins' (snd first)) = nextRef (heap (snd first)) /\
     formatRuns (snd (render coins' (snd first)))
     = (formatRuns (snd first)
        + length (default [] (coinArrays (heap (snd first)) !! coins')))%nat) /\
  (forall coins',
     formatRuns (snd (render coins' (snd first))) <> formatRuns (snd first) ->
     coins' <> coins).
Proof.
  cbn zeta.
  assert (Hcell := AppFacts.render_fills_cell toLocaleString toFixed2 toUpperCase coins f).
  set (first := render toLocaleString toFixed2 toUpperCase coins f) in *.
  assert (Hsame : render toLocaleString toFixed2 toUpperCase coins (snd first)
                  = (fst first, snd first)).
  { unfold render at 1, useMemo_formattedCoins. rewrite Hcell.
    rewrite Nat.eqb_refl. reflexivity. }
  split; [exact Hsame | split].
  - intros coins' Hne.
    unfold render, useMemo_formattedCoins. rewrite Hcell.
    destruct (Nat.eqb_spec coins coins') as [Heq | _]; [congruence|].
    split; reflexivity.
  - intros coins' Hruns ->. apply Hruns. rewrite Hsame. reflexivity.
Qed.

(** C8.  In every schedule of the effect, once the clean-up has aborted the
    controller no state setter is called any more: whatever follows the
    abort contains no [setCoins], [setError] or [setLoading]. *)
Theorem no_state_update_after_abort
    (schedule : list Action) (before after : list Event) :
  (run schedule false = before ++ Aborted :: after)%list ->
  Forall (fun e => isUpdate e = false) after.
Proof. apply AppFacts.quiet_after_abort. Qed.

Import Migration.


(* ===================================================================== *)
(** ** The statements at concrete inputs *)
(* ===================================================================== *)

Import Samples.

(** C1 at a sample: one visit at 1000 ms and sixty more at 31000 ms, from a
    fresh process. *)
Lemma first_sixty_pass_then_429_at_sample :
  length laterVisits = 60%nat /\
  map status (fst (RateLimitedFunction.serve (firstVisit :: laterVisits)
                     RateLimitedFunction.initial))
  = (repeat 200 60 ++ [429])%list.
Proof.
  split; [reflexivity|].
  apply (first_sixty_pass_then_429 "203.0.113.7" firstVisit laterVisits
           RateLimitedFunction.initial).
  - reflexivity.
  - repeat constructor.
  - repeat (constructor; [cbn; lia|]). constructor.
  - left. apply lookup_empty.
Defined.




(** C7 at a sample: two renders with the array at reference 0, then one
    with the array at reference 1. *)
Lemma formattedCoins_recomputed_at_sample :
  let render := render plainNumber plainNumber sameString in
  (1 <> 0)%nat /\
  render 0%nat (snd (render 0%nat freshFiber))
  = (fst (render 0%nat freshFiber), snd (render 0%nat freshFiber)) /\
  formatRuns (snd (render 1%nat (snd (render 0%nat freshFiber)))) = 6%nat.
Proof.
  cbn zeta.
  destruct (formattedCoins_recomputed_only_on_new_reference
              plainNumber plainNumber sameString 0%nat freshFiber)
    as (Hsame & Hnew & _).
  assert (Hne : (1 <> 0)%nat) by discriminate.
  split; [exact Hne|]. split; [exact Hsame|].
  destruct (Hnew 1%nat Hne) as [_ Hruns]. rewrite Hruns. reflexivity.
Defined.

(** C8 at a sample: the continuation and the clean-up each run twice. *)
Lemma no_state_update_after_abort_at_sample :
  (run lateSchedule false
   = [Updated (setCoins mockCoins); Updated (setLoading false)]
     ++ Aborted :: [Aborted])%list /\
  Forall (fun e => isUpdate e = false) [Aborted].
Proof.
  assert (Hrun : (run lateSchedule false
                  = [Updated (setCoins mockCoins); Updated (setLoading false)]
                    ++ Aborted :: [Aborted])%list) by reflexivity.
  split; [exact Hrun|].
  exact (no_state_update_after_abort lateSchedule _ _ Hrun).
Defined.

(* ===================================================================== *)
(** ** More about the rate limiter: windows, counters and growth *)
(* ===================================================================== *)

Module WindowFacts.
Import RateLimit RateLimitFacts Traffic.

(** Where the record of a key comes from after one call. *)
Lemma check_provenance (ip k : string) (now : Z) (m : gmap string RateRecord)
    (r : RateRecord) :
  snd (checkRateLimit_default ip now m) !! k = Some r ->
  (k = ip /\ r = mkRecord 1 (now + 60000)) \/
  (k = ip /\ exists r0, m !! ip = Some r0 /\ count r0 < 60 /\ r = incr r0) \/
  m !! k = Some r.
Proof.
  intros Hk. destruct (String.eqb_spec k ip) as [-> | Hne].
  - destruct (check_self ip now m) as [_ Hrec]. rewrite Hrec in Hk.
    injection Hk as <-. unfold clientStep.
    destruct (m !! ip) as [r0|]; [|left; split; reflexivity].
    destruct (resetTime r0 <? now); [left; split; reflexivity|].
    destruct (count r0 <? 60) eqn:Hc; cbn [snd].
    + right; left. split; [reflexivity|]. exists r0.
      repeat split. apply Z.ltb_lt. exact Hc.
    + right; right. reflexivity.
  - rewrite (check_other ip k now m Hne) in Hk.
    destruct (cleanup_lookup_cases now 60000 m k) as [Heq | [Hnone _]].
    + right; right. rewrite <- Heq. exact Hk.
    + rewrite Hnone in Hk. discriminate Hk.
Qed.

(** A call keeps all counters between 1 and 60. *)
Lemma check_countsInRange (ip : string) (now : Z) (m : gmap string RateRecord) :
  countsInRange m -> countsInRange (snd (checkRateLimit_default ip now m)).
Proof.
  intros Hm k r Hk.
  destruct (check_provenance ip k now m r Hk)
    as [[_ ->] | [(_ & r0 & Hr0 & Hlt & ->) | Hold]].
  - cbn. lia.
  - specialize (Hm ip r0 Hr0). unfold incr. cbn. lia.
  - exact (Hm k r Hold).
Qed.

(** The record of a client at the end of calls that all fall inside its
    window. *)
Lemma calls_in_window_record (ip : string) (R : Z) (later : list Z) :
  forall (m : gmap string RateRecord) (c : Z),
    m !! ip = Some (mkRecord c R) -> c <= 60 ->
    Forall (fun t => t <= R) later ->
    snd (calls (map (fun t => (ip, t)) later) m) !! ip
    = Some (mkRecord (Z.min 60 (c + Z.of_nat (length later))) R).
Proof.
  induction later as [|t ts IH]; intros m c Hrec Hc Hall.
  - cbn [map calls snd length]. rewrite Hrec. f_equal. f_equal. lia.
  - inversion Hall as [|? ? Ht Hts]; subst.
    cbn [map calls].
    destruct (check_self ip t m) as [_ Hnew].
    destruct (checkRateLimit_default ip t m) as [ok m1]. cbn [snd] in Hnew.
    rewrite Hrec in Hnew. unfold clientStep in Hnew. cbn [resetTime count] in Hnew.
    replace (R <? t) with false in Hnew by (symmetry; apply Z.ltb_ge; lia).
    destruct (c <? 60) eqn:Hlt; cbn [snd] in Hnew.
    + apply Z.ltb_lt in Hlt.
      specialize (IH m1 (c + 1) Hnew ltac:(lia) Hts).
      destruct (calls (map (fun t0 => (ip, t0)) ts) m1) as [oks m2].
      cbn [snd] in *. rewrite IH. f_equal. f_equal. cbn [length]. lia.
    + apply Z.ltb_ge in Hlt.
      specialize (IH m1 c Hnew Hc Hts).
      destruct (calls (map (fun t0 => (ip, t0)) ts) m1) as [oks m2].
      cbn [snd] in *. rewrite IH. f_equal. f_equal. cbn [length]. lia.
Qed.

(** The clean-up block never adds an entry. *)
Lemma cleanup_subseteq (now w : Z) (m : gmap string RateRecord) :
  cleanup now w m ⊆ m.
Proof.
  unfold cleanup. destruct (sweepThreshold <? Z.of_nat (size m)); [|reflexivity].
  apply map_filter_subseteq.
Qed.

(** With no entry behind the cutoff the clean-up block changes nothing. *)
Lemma cleanup_nothing_stale (now w : Z) (m : gmap string RateRecord) :
  (forall k r, m !! k = Some r -> now - w <= resetTime r) ->
  cleanup now w m = m.
Proof.
  intros Hfresh. unfold cleanup.
  destruct (sweepThreshold <? Z.of_nat (size m)); [|reflexivity].
  apply map_filter_id. intros k r Hk. cbn. unfold stale.
  apply Z.ltb_ge. exact (Hfresh k r Hk).
Qed.

Lemma size_alter (f : RateRecord -> RateRecord) (k : string)
    (m : gmap string RateRecord) :
  size (alter f k m) = size m.
Proof. rewrite <- !size_dom, dom_alter_L. reflexivity. Qed.

End WindowFacts.

Import Traffic.

(** X1.  However often a client calls inside one window, it is let through
    sixty times and turned away every time after that; the calls turned away
    leave its record as it was, so the window ends when it would have ended
    anyway. *)
Theorem window_lets_sixty_through_whatever_follows
    (ip : string) (m : gmap string RateRecord) (opened : Z) (later : list Z) :
  (m !! ip = None \/ exists r, m !! ip = Some r /\ resetTime r < opened) ->
  Forall (fun t => t <= opened + 60000) later ->
  let run := calls (map (fun t => (ip, t)) (opened :: later)) m in
  fst run = map (fun k => Z.of_nat k <? 60) (seq 0 (S (length later))) /\
  snd run !! ip
  = Some (mkRecord (Z.min 60 (1 + Z.of_nat (length later))) (opened + 60000)).
Proof.
  intros Hfresh Hwin. cbn zeta. split.
  - rewrite HandlerFacts.calls_one_client. cbn [clientRun].
    assert (Hstep : clientStep (m !! ip) opened = (true, mkRecord 1 (opened + 60000))).
    { destruct Hfresh as [-> | (r & -> & Hlt)]; [reflexivity|].
      unfold clientStep. apply Z.ltb_lt in Hlt. rewrite Hlt. reflexivity. }
    rewrite Hstep, (HandlerFacts.clientRun_in_window _ _ _ Hwin).
    cbn [seq map]. f_equal. rewrite <- seq_shift, map_map.
    apply map_ext. intros k. f_equal. lia.
  - cbn [map calls].
    destruct (RateLimitFacts.check_self ip opened m) as [_ Hnew].
    destruct (checkRateLimit_default ip opened m) as [ok m1]. cbn [snd] in Hnew.
    assert (Hrec : m1 !! ip = Some (mkRecord 1 (opened + 60000))).
    { rewrite Hnew. destruct Hfresh as [-> | (r & -> & Hlt)]; [reflexivity|].
      unfold clientStep. apply Z.ltb_lt in Hlt. rewrite Hlt. reflexivity. }
    assert (Hend := WindowFacts.calls_in_window_record ip (opened + 60000) later
                      m1 1 Hrec ltac:(lia) Hwin).
    destruct (calls (map (fun t => (ip, t)) later) m1) as [oks m2].
    exact Hend.
Qed.

(** X2.  Started with an empty map, the limiter keeps every counter between 1
    and 60 and every [resetTime] at 60000 ms after the clock reading of one
    of that client's own calls, whatever the traffic and the clock. *)
Theorem records_count_1_to_60_and_end_a_window_of_their_client
    (traffic : list (string * Z)) (k : string) (r : RateRecord) :
  snd (calls traffic ∅) !! k = Some r ->
  1 <= count r <= 60 /\
  exists t, In (k, t) traffic /\ resetTime r = t + 60000.
Proof.
  assert (Hgen : forall tr (m : gmap string RateRecord),
    (forall k r, m !! k = Some r -> 1 <= count r <= 60) ->
    forall k r, snd (calls tr m) !! k = Some r ->
      1 <= count r <= 60 /\
      ((exists t, In (k, t) tr /\ resetTime r = t + 60000) \/
       (exists r0, m !! k = Some r0 /\ resetTime r = resetTime r0))).
  { induction tr as [|[ip now] rest IH]; intros m Hm k' r' Hk.
    - cbn in Hk. split; [exact (Hm k' r' Hk)|]. right. exists r'. split; [exact Hk | reflexivity].
    - cbn [calls] in Hk.
      assert (Hm1 := WindowFacts.check_countsInRange ip now m Hm).
      assert (Hprov := fun r1 => WindowFacts.check_provenance ip k' now m r1).
      destruct (checkRateLimit_default ip now m) as [ok m1]. cbn [snd] in Hm1, Hprov.
      specialize (IH m1 Hm1 k' r').
      destruct (calls rest m1) as [oks m2]. cbn [snd] in *.
      destruct (IH Hk) as [Hcount [(t & Hin & Ht) | (r1 & Hr1 & Hreset)]].
      + split; [exact Hcount|]. left. exists t. split; [right; exact Hin | exact Ht].
      + split; [exact Hcount|].
        destruct (Hprov r1 Hr1) as [[-> ->] | [(-> & r0 & Hr0 & _ & ->) | Hold]].
        * left. exists now. split; [left; reflexivity | exact Hreset].
        * right. exists r0. split; [exact Hr0 | exact Hreset].
        * right. exists r1. split; [exact Hold | exact Hreset]. }
  intros Hk.
  destruct (Hgen traffic ∅ ltac:(intros ? ? H; rewrite lookup_empty in H; discriminate H)
              k r Hk) as [Hcount [Hfrom | (r0 & Hr0 & _)]].
  - split; assumption.
  - rewrite lookup_empty in Hr0. discriminate Hr0.
Qed.

(** X3.  A call adds at most one entry to the map.  The threshold is no
    capacity: when no entry is more than a window old, a call of a client
    without an entry makes the map one larger, also above 10000 entries. *)
Theorem each_call_adds_at_most_one_entry
    (ip : string) (now : Z) (m : gmap string RateRecord) :
  (size (snd (checkRateLimit_default ip now m)) <= S (size m))%nat /\
  (m !! ip = None ->
   (forall k r, m !! k = Some r -> now - 60000 <= resetTime r) ->
   size (snd (checkRateLimit_default ip now m)) = S (size m)).
Proof.
  assert (Hsub := map_subseteq_size _ _ (WindowFacts.cleanup_subseteq now 60000 m)).
  split.
  - unfold checkRateLimit_default, checkRateLimit.
    destruct (m !! ip) as [r|]; cbn [snd].
    + destruct (resetTime r <? now); cbn [snd].
      * rewrite map_size_insert.
        destruct (cleanup now 60000 m !! ip); cbn; lia.
      * destruct (count r <? 60); cbn [snd];
          [rewrite WindowFacts.size_alter|]; lia.
    + rewrite map_size_insert.
      destruct (cleanup now 60000 m !! ip); cbn; lia.
  - intros Hnone Hfresh.
    unfold checkRateLimit_default, checkRateLimit. rewrite Hnone. cbn [snd].
    rewrite (WindowFacts.cleanup_nothing_stale now 60000 m Hfresh).
    apply map_size_insert_None. exact Hnone.
Qed.

(* ===================================================================== *)
(** ** More about the rate-limited function: quota, cache and headers *)
(* ===================================================================== *)

Module ServeFacts.
Import JS RateLimit Http RateLimitedFunction RateLimitFacts Traffic.

Lemma serve_app (before after : list Invocation) (st : State) :
  serve (before ++ after)%list st
  = ((fst (serve before st) ++ fst (serve after (snd (serve before st))))%list,
     snd (serve after (snd (serve before st)))).
Proof.
  revert st. induction before as [|i rest IH]; intros st.
  - cbn. destruct (serve after st); reflexivity.
  - cbn [serve app].
    destruct (handler (inv_req i) (inv_context i) (inv_env i) st) as [[resp lg] st1].
    rewrite (IH st1). destruct (serve rest st1) as [resps st2]. reflexivity.
Qed.

(** A GET request, whatever [neon()] does: the limiter's map is the one
    the call leaves, the answer is 429 exactly when the limiter says no,
    and otherwise it is 200 or 500. *)
Lemma handler_get_any (req : Request) (context : Context) (env : Env) (st : State) :
  method req = "GET" ->
  let check := checkRateLimit_default (or_string (ip context) "unknown") (now env)
                 (rateLimitMap st) in
  let out := handler req context env st in
  rateLimitMap (snd out) = snd check /\
  (status (fst (fst out)) =? 429) = negb (fst check) /\
  (status (fst (fst out)) = 200 \/ status (fst (fst out)) = 500
   \/ status (fst (fst out)) = 429).
Proof.
  intros Hm. cbn zeta. unfold handler. rewrite Hm.
  change (negb ("GET" =? "GET")%string) with false. cbv iota.
  destruct (checkRateLimit_default _ _ _) as [ok m1].
  destruct ok; cbn [negb fst snd].
  - unfold getSql. cbn [cachedSql rateLimitMap].
    destruct (cachedSql st); [cbn; tauto|].
    destruct (neon env); cbn; tauto.
  - cbn. tauto.
Qed.

(** The connection cache: it is filled by every 200, it is never emptied,
    and while it is filled no response is a 500. *)
Lemma handler_cache (req : Request) (context : Context) (env : Env) (st : State) :
  let out := handler req context env st in
  (status (fst (fst out)) = 200 -> cachedSql (snd out) = true) /\
  (cachedSql st = true ->
   cachedSql (snd out) = true /\ status (fst (fst out)) <> 500).
Proof.
  cbn zeta. unfold handler.
  destruct (negb (method req =? "GET")%string).
  { cbn. split; [discriminate | intros ->; split; [reflexivity | discriminate]]. }
  destruct (checkRateLimit_default _ _ _) as [ok m1].
  destruct ok; cbn [negb].
  - unfold getSql. cbn [cachedSql rateLimitMap].
    destruct (cachedSql st) eqn:Hc.
    + cbn. split; [intros _; reflexivity | intros _; split; [reflexivity | discriminate]].
    + destruct (neon env); cbn.
      * split; discriminate.
      * split; [reflexivity | discriminate].
  - cbn. split; [discriminate | intros ->; split; [reflexivity | discriminate]].
Qed.

Lemma serve_cached (invs : list Invocation) :
  forall st : State,
    cachedSql st = true ->
    cachedSql (snd (serve invs st)) = true /\
    Forall (fun r => status r <> 500) (fst (serve invs st)).
Proof.
  induction invs as [|i rest IH]; intros st Hc; [split; [exact Hc | constructor]|].
  cbn [serve].
  destruct (handler_cache (inv_req i) (inv_context i) (inv_env i) st) as [_ Hkeep].
  destruct (Hkeep Hc) as [Hc1 Hno].
  destruct (handler (inv_req i) (inv_context i) (inv_env i) st) as [[resp lg] st1].
  cbn [fst snd] in Hc1, Hno.
  destruct (IH st1 Hc1) as [Hc2 Hall].
  destruct (serve rest st1) as [resps st2]. cbn [fst snd] in *.
  split; [exact Hc2 | constructor; assumption].
Qed.

Lemma serve_200_caches (invs : list Invocation) :
  forall st : State,
    Exists (fun r => status r = 200) (fst (serve invs st)) ->
    cachedSql (snd (serve invs st)) = true.
Proof.
  induction invs as [|i rest IH]; intros st Hex.
  - cbn in Hex. inversion Hex.
  - cbn [serve] in *.
    destruct (handler_cache (inv_req i) (inv_context i) (inv_env i) st) as [H200 _].
    destruct (handler (inv_req i) (inv_context i) (inv_env i) st) as [[resp lg] st1].
    cbn [fst snd] in H200.
    assert (Hrest := serve_cached rest st1).
    specialize (IH st1).
    destruct (serve rest st1) as [resps st2]. cbn [fst snd] in *.
    inversion Hex as [? ? Hnow | ? ? Hlater]; subst.
    + apply Hrest. exact (H200 Hnow).
    + exact (IH Hlater).
Qed.

(** The header of a 200 answer: 60 less the counter the client has after
    the call. *)
Lemma handler_remaining (req : Request) (context : Context) (env : Env) (st : State) :
  method req = "GET" -> neon env = None ->
  let clientIp := or_string (ip context) "unknown" in
  fst (checkRateLimit_default clientIp (now env) (rateLimitMap st)) = true ->
  JS.get "X-RateLimit-Remaining" (headers (fst (fst (handler req context env st))))
  = Some (String_of_int
            (remainingOf (Some (snd (clientStep (rateLimitMap st !! clientIp)
                                       (now env)))))).
Proof.
  intros Hm Hn. cbn zeta. intros Hok. unfold handler. rewrite Hm.
  change (negb ("GET" =? "GET")%string) with false. cbv iota.
  destruct (check_self (or_string (ip context) "unknown") (now env) (rateLimitMap st))
    as [_ Hrec].
  destruct (checkRateLimit_default _ _ _) as [ok m1].
  cbn [fst snd] in Hok, Hrec. subst ok. cbn [negb].
  unfold getSql. cbn [cachedSql rateLimitMap].
  destruct (cachedSql st); [|rewrite Hn]; cbn [rateLimitMap]; rewrite Hrec; reflexivity.
Qed.

(** The [X-RateLimit-Remaining] headers of requests that all fall inside an
    open window with room left. *)
Lemma serve_remaining_in_window (clientIp : string) (R : Z)
    (invs : list Invocation) :
  forall (st : State) (c : Z),
    rateLimitMap st !! clientIp = Some (mkRecord c R) ->
    c + Z.of_nat (length invs) <= 60 ->
    Forall (fun i => method (inv_req i) = "GET" /\ clientOf i = clientIp
                     /\ neon (inv_env i) = None /\ now (inv_env i) <= R) invs ->
    map (fun r => JS.get "X-RateLimit-Remaining" (headers r)) (fst (serve invs st))
    = map (fun k => Some (String_of_int (59 - c - Z.of_nat k)))
        (seq 0 (length invs)).
Proof.
  induction invs as [|i rest IH]; intros st c Hrec Hroom Hall; [reflexivity|].
  inversion Hall as [|? ? (Hm & Hc & Hn & Ht) Hrest]; subst.
  cbn [length] in Hroom.
  assert (Hstep : clientStep (rateLimitMap st !! clientOf i) (now (inv_env i))
                  = (true, mkRecord (c + 1) R)).
  { rewrite Hrec. unfold clientStep. cbn [resetTime count].
    replace (R <? now (inv_env i)) with false by (symmetry; apply Z.ltb_ge; lia).
    replace (c <? 60) with true by (symmetry; apply Z.ltb_lt; lia).
    reflexivity. }
  destruct (check_self (clientOf i) (now (inv_env i)) (rateLimitMap st))
    as [Hans Hnew].
  rewrite Hstep in Hans, Hnew. cbn [fst snd] in Hans, Hnew.
  assert (Hhdr := handler_remaining (inv_req i) (inv_context i) (inv_env i) st
                    Hm Hn Hans).
  fold (clientOf i) in Hhdr. rewrite Hstep in Hhdr. cbn [snd remainingOf count] in Hhdr.
  destruct (handler_get_any (inv_req i) (inv_context i) (inv_env i) st Hm)
    as (Hmap & _ & _).
  fold (clientOf i) in Hmap.
  cbn [serve length seq map].
  destruct (handler (inv_req i) (inv_context i) (inv_env i) st) as [[resp lg] st1].
  cbn [fst snd] in Hhdr, Hmap.
  assert (Hrec1 : rateLimitMap st1 !! clientOf i = Some (mkRecord (c + 1) R)).
  { rewrite Hmap. exact Hnew. }
  specialize (IH st1 (c + 1) Hrec1 ltac:(lia) Hrest).
  destruct (serve rest st1) as [resps st2]. cbn [fst map] in *.
  rewrite Hhdr, IH. f_equal.
  - f_equal. f_equal. lia.
  - rewrite <- seq_shift, map_map. apply map_ext. intros k. f_equal. f_equal. lia.
Qed.

End ServeFacts.

(** GET requests of one client, whatever [neon()] does: a response is a 429
    exactly where the limiter says no, and a 200 or a 500 elsewhere. *)
Lemma serve_one_client_any_outcome
    (clientIp : string) (invs : list RateLimitedFunction.Invocation) :
  forall st : RateLimitedFunction.State,
    Forall (fun i => method (RateLimitedFunction.inv_req i) = "GET"
                     /\ RateLimitedFunction.clientOf i = clientIp) invs ->
    let oks := fst (calls (map (fun i => (clientIp,
                                          now (RateLimitedFunction.inv_env i))) invs)
                      (RateLimitedFunction.rateLimitMap st)) in
    map (fun r => status r =? 429) (fst (RateLimitedFunction.serve invs st))
      = map negb oks /\
    Forall (fun r => status r = 200 \/ status r = 500 \/ status r = 429)
      (fst (RateLimitedFunction.serve invs st)).
Proof.
  induction invs as [|i rest IH]; intros st Hall; [split; [reflexivity | constructor]|].
  inversion Hall as [|? ? (Hm & Hc) Hrest]; subst.
  cbn [RateLimitedFunction.serve map calls].
  destruct (ServeFacts.handler_get_any (RateLimitedFunction.inv_req i)
              (RateLimitedFunction.inv_context i) (RateLimitedFunction.inv_env i) st Hm)
    as (Hmap & H429 & Hst).
  fold (RateLimitedFunction.clientOf i) in Hmap, H429.
  destruct (RateLimitedFunction.handler (RateLimitedFunction.inv_req i)
              (RateLimitedFunction.inv_context i) (RateLimitedFunction.inv_env i) st)
    as [[resp lg] st1].
  destruct (checkRateLimit_default (RateLimitedFunction.clientOf i)
              (now (RateLimitedFunction.inv_env i))
              (RateLimitedFunction.rateLimitMap st)) as [ok m1].
  cbn [fst snd] in Hmap, H429, Hst.
  specialize (IH st1 Hrest). rewrite Hmap in IH. cbn zeta in IH.
  destruct IH as [IH1 IH2].
  destruct (RateLimitedFunction.serve rest st1) as [resps st2].
  destruct (calls (map (fun i0 => (RateLimitedFunction.clientOf i,
                                   now (RateLimitedFunction.inv_env i0))) rest) m1)
    as [oks m2].
  cbn [fst snd map] in *. rewrite H429, IH1.
  split; [reflexivity | constructor; assumption].
Qed.

(** X4.  Requests that end in a 500 count against the limit like any other:
    of 61 GET requests of one client inside one window, whatever [neon()]
    does on each, the first 60 are answered 200 or 500 and the 61st 429. *)
Theorem failed_requests_use_up_the_window
    (clientIp : string) (first : RateLimitedFunction.Invocation)
    (rest : list RateLimitedFunction.Invocation)
    (st : RateLimitedFunction.State) :
  let invs := first :: rest in
  let opened := now (RateLimitedFunction.inv_env first) in
  length rest = 60%nat ->
  Forall (fun i => method (RateLimitedFunction.inv_req i) = "GET"
                   /\ RateLimitedFunction.clientOf i = clientIp) invs ->
  Forall (fun i => now (RateLimitedFunction.inv_env i) <= opened + 60000) rest ->
  (RateLimitedFunction.rateLimitMap st !! clientIp = None \/
   exists r, RateLimitedFunction.rateLimitMap st !! clientIp = Some r
             /\ resetTime r < opened) ->
  map (fun r => status r =? 429) (fst (RateLimitedFunction.serve invs st))
    = (repeat false 60 ++ [true])%list /\
  Forall (fun r => status r = 200 \/ status r = 500 \/ status r = 429)
    (fst (RateLimitedFunction.serve invs st)).
Proof.
  intros invs opened Hlen Hall Hwin Hfresh.
  destruct (serve_one_client_any_outcome clientIp invs st Hall) as [H429 Hst].
  split; [|exact Hst].
  rewrite H429.
  rewrite <- (map_map (fun i => now (RateLimitedFunction.inv_env i))
                      (fun t => (clientIp, t))).
  rewrite HandlerFacts.calls_one_client.
  unfold invs. cbn [map]. fold opened.
  rewrite (HandlerFacts.clientRun_fresh_window _ opened _ Hfresh).
  - reflexivity.
  - rewrite length_map. exact Hlen.
  - apply Forall_map. exact Hwin.
Qed.

(** X5.  Once the function has answered 200, its connection is cached for the
    life of the process: no later request is answered 500, whatever
    [neon()] would do. *)
Theorem no_500_after_a_200
    (before after : list RateLimitedFunction.Invocation)
    (st : RateLimitedFunction.State) :
  Exists (fun r => status r = 200) (fst (RateLimitedFunction.serve before st)) ->
  RateLimitedFunction.serve (before ++ after)%list st
  = ((fst (RateLimitedFunction.serve before st)
      ++ fst (RateLimitedFunction.serve after
                (snd (RateLimitedFunction.serve before st))))%list,
     snd (RateLimitedFunction.serve after
            (snd (RateLimitedFunction.serve before st)))) /\
  Forall (fun r => status r <> 500)
    (fst (RateLimitedFunction.serve after
            (snd (RateLimitedFunction.serve before st)))).
Proof.
  intros Hex. split; [apply ServeFacts.serve_app|].
  apply ServeFacts.serve_cached.
  apply ServeFacts.serve_200_caches. exact Hex.
Qed.

(** X6.  Requests with another method than GET cost nothing: each gets its 405,
    and the state and the answers to the GET requests are what they would
    be had the other requests never been made. *)
Theorem other_methods_leave_no_trace
    (invs : list RateLimitedFunction.Invocation) (st : RateLimitedFunction.State) :
  snd (RateLimitedFunction.serve invs st)
  = snd (RateLimitedFunction.serve (List.filter isGET invs) st) /\
  List.filter (fun r => negb (status r =? 405)) (fst (RateLimitedFunction.serve invs st))
  = fst (RateLimitedFunction.serve (List.filter isGET invs) st) /\
  length (List.filter (fun r => status r =? 405) (fst (RateLimitedFunction.serve invs st)))
  = length (List.filter (fun i => negb (isGET i)) invs).
Proof.
  revert st. induction invs as [|i rest IH]; intros st; [repeat split|].
  cbn [List.filter]. destruct (isGET i) eqn:Hget; cbn [negb].
  - assert (Hm : method (RateLimitedFunction.inv_req i) = "GET")
      by (apply String.eqb_eq; exact Hget).
    cbn [RateLimitedFunction.serve].
    destruct (ServeFacts.handler_get_any (RateLimitedFunction.inv_req i)
                (RateLimitedFunction.inv_context i) (RateLimitedFunction.inv_env i)
                st Hm) as (_ & _ & Hst).
    destruct (RateLimitedFunction.handler (RateLimitedFunction.inv_req i)
                (RateLimitedFunction.inv_context i) (RateLimitedFunction.inv_env i) st)
      as [[resp lg] st1].
    cbn [fst snd] in Hst.
    destruct (IH st1) as (IH1 & IH2 & IH3).
    destruct (RateLimitedFunction.serve rest st1) as [resps st2].
    destruct (RateLimitedFunction.serve (List.filter isGET rest) st1) as [resps' st2'].
    cbn [fst snd List.filter] in *.
    assert (H405 : (status resp =? 405) = false).
    { apply Z.eqb_neq. destruct Hst as [-> | [-> | ->]]; discriminate. }
    rewrite H405. cbn [negb]. rewrite IH1, IH2, IH3. repeat split.
  - assert (Hm : method (RateLimitedFunction.inv_req i) <> "GET")
      by (apply String.eqb_neq; exact Hget).
    cbn [RateLimitedFunction.serve].
    rewrite (rate_limited_rejects_non_get _ _ _ st Hm).
    destruct (IH st) as (IH1 & IH2 & IH3).
    destruct (RateLimitedFunction.serve rest st) as [resps st2].
    cbn [fst snd List.filter negb RateLimitedFunction.methodNotAllowed status length] in *.
    change (405 =? 405) with true. cbn [negb length].
    rewrite IH1, IH2, IH3. repeat split.
Qed.

(** X7.  Inside a window the [X-RateLimit-Remaining] header counts down by one
    with each request served: 59 on the request that opens the window, then
    58, 57, and so on, reaching 0 on the sixtieth. *)
Theorem remaining_header_counts_down
    (clientIp : string) (first : RateLimitedFunction.Invocation)
    (rest : list RateLimitedFunction.Invocation)
    (st : RateLimitedFunction.State) :
  let invs := first :: rest in
  let opened := now (RateLimitedFunction.inv_env first) in
  (length rest <= 59)%nat ->
  Forall (fun i => method (RateLimitedFunction.inv_req i) = "GET"
                   /\ RateLimitedFunction.clientOf i = clientIp
                   /\ neon (RateLimitedFunction.inv_env i) = None) invs ->
  Forall (fun i => now (RateLimitedFunction.inv_env i) <= opened + 60000) rest ->
  (RateLimitedFunction.rateLimitMap st !! clientIp = None \/
   exists r, RateLimitedFunction.rateLimitMap st !! clientIp = Some r
             /\ resetTime r < opened) ->
  map (fun r => JS.get "X-RateLimit-Remaining" (headers r))
      (fst (RateLimitedFunction.serve invs st))
  = map (fun k => Some (String_of_int (59 - Z.of_nat k))) (seq 0 (S (length rest))).
Proof.
  intros invs opened Hlen Hall Hwin Hfresh.
  inversion Hall as [|? ? (Hm & Hc & Hn) Hrest]; subst.
  assert (Hstep : clientStep (RateLimitedFunction.rateLimitMap st
                                !! RateLimitedFunction.clientOf first) opened
                  = (true, mkRecord 1 (opened + 60000))).
  { destruct Hfresh as [-> | (r & -> & Hlt)]; [reflexivity|].
    unfold clientStep. apply Z.ltb_lt in Hlt. rewrite Hlt. reflexivity. }
  destruct (RateLimitFacts.check_self (RateLimitedFunction.clientOf first) opened
              (RateLimitedFunction.rateLimitMap st)) as [Hans Hnew].
  rewrite Hstep in Hans, Hnew. cbn [fst snd] in Hans, Hnew.
  assert (Hhdr := ServeFacts.handler_remaining (RateLimitedFunction.inv_req first)
                    (RateLimitedFunction.inv_context first)
                    (RateLimitedFunction.inv_env first) st Hm Hn Hans).
  fold (RateLimitedFunction.clientOf first) in Hhdr. fold opened in Hhdr.
  rewrite Hstep in Hhdr. cbn [snd RateLimitedFunction.remainingOf count] in Hhdr.
  destruct (ServeFacts.handler_get_any (RateLimitedFunction.inv_req first)
              (RateLimitedFunction.inv_context first)
              (RateLimitedFunction.inv_env first) st Hm) as (Hmap & _ & _).
  fold (RateLimitedFunction.clientOf first) in Hmap. fold opened in Hmap.
  unfold invs. cbn [RateLimitedFunction.serve seq map].
  destruct (RateLimitedFunction.handler (RateLimitedFunction.inv_req first)
              (RateLimitedFunction.inv_context first)
              (RateLimitedFunction.inv_env first) st) as [[resp lg] st1].
  cbn [fst snd] in Hhdr, Hmap.
  assert (Hrec1 : RateLimitedFunction.rateLimitMap st1
                    !! RateLimitedFunction.clientOf first
                  = Some (mkRecord 1 (opened + 60000))).
  { rewrite Hmap. exact Hnew. }
  assert (Hrest' :
    Forall (fun i => method (RateLimitedFunction.inv_req i) = "GET"
                     /\ RateLimitedFunction.clientOf i = RateLimitedFunction.clientOf first
                     /\ neon (RateLimitedFunction.inv_env i) = None
                     /\ now (RateLimitedFunction.inv_env i) <= opened + 60000) rest).
  { rewrite Forall_forall in *. intros i Hi.
    destruct (Hrest i Hi) as (? & ? & ?). specialize (Hwin i Hi). tauto. }
  assert (Htail := ServeFacts.serve_remaining_in_window
                     (RateLimitedFunction.clientOf first) (opened + 60000) rest st1 1
                     Hrec1 ltac:(lia) Hrest').
  destruct (RateLimitedFunction.serve rest st1) as [resps st2].
  cbn [fst map] in *. rewrite Hhdr, Htail. f_equal.
  rewrite <- seq_shift, map_map. apply map_ext. intros k. f_equal. f_equal. lia.
Qed.

(* ===================================================================== *)
(** ** Decimal numerals as [limit] values *)
(* ===================================================================== *)

Module DecimalFacts.
Import JS.

(** Reading the digits of a numeral after a non-zero prefix [a]. *)
Lemma parseDigits_acc (d : Decimal.uint) :
  forall a : positive,
    parseDigits 10 (NilEmpty.string_of_uint d) (Some (Z.pos a))
    = Some (Z.pos (Pos.of_uint_acc d a)).
Proof.
  induction d; intros a; cbn [NilEmpty.string_of_uint parseDigits Pos.of_uint_acc];
    try reflexivity;
    match goal with
    | |- context [digitValue 10 ?c] =>
        let v := eval vm_compute in (digitValue 10 c) in
        change (digitValue 10 c) with v
    end;
    cbv iota beta;
    match goal with
    | |- parseDigits 10 _ (Some ?x) = Some (Z.pos (Pos.of_uint_acc _ ?y)) =>
        replace x with (Z.pos y) by lia
    end;
    apply IHd.
Qed.

(** Reading the digits of a numeral from zero. *)
Lemma parseDigits_zero (d : Decimal.uint) :
  parseDigits 10 (NilEmpty.string_of_uint d) (Some 0)
  = Some (Z.of_N (Pos.of_uint d)).
Proof.
  induction d; cbn [NilEmpty.string_of_uint parseDigits Pos.of_uint];
    try reflexivity;
    match goal with
    | |- context [digitValue 10 ?c] =>
        let v := eval vm_compute in (digitValue 10 c) in
        change (digitValue 10 c) with v
    end;
    cbv iota beta; cbn [Z.mul Z.add];
    first [ exact IHd | apply (parseDigits_acc d) ].
Qed.

(** [parseInt] of the numeral of a positive number. *)
Lemma parseInt_pos (p : positive) :
  parseInt (NilEmpty.string_of_uint (Pos.to_uint p)) = Num (Z.pos p).
Proof.
  assert (Hval : Pos.of_uint (Pos.to_uint p) = N.pos p)
    by apply DecimalPos.Unsigned.of_to.
  assert (Hnn : Pos.to_uint p <> Decimal.Nil)
    by apply DecimalPos.Unsigned.to_uint_nonnil.
  assert (Hparse : forall d,
    d <> Decimal.Nil ->
    parseInt (NilEmpty.string_of_uint d)
    = match parseDigits 10 (NilEmpty.string_of_uint d) (Some 0) with
      | Some n => Num (1 * n)
      | None => NaN
      end).
  { intros d Hd. destruct d as [|d|d|d|d|d|d|d|d|d|d]; [contradiction|..];
      destruct d; reflexivity. }
  rewrite (Hparse _ Hnn), parseDigits_zero, Hval. f_equal.
Qed.

(** [parseInt] of the numeral of a negative number. *)
Lemma parseInt_neg (p : positive) :
  parseInt (String "-" (NilEmpty.string_of_uint (Pos.to_uint p))) = Num (Z.neg p).
Proof.
  assert (Hval : Pos.of_uint (Pos.to_uint p) = N.pos p)
    by apply DecimalPos.Unsigned.of_to.
  assert (Hnn : Pos.to_uint p <> Decimal.Nil)
    by apply DecimalPos.Unsigned.to_uint_nonnil.
  assert (Hparse : forall d,
    d <> Decimal.Nil ->
    parseInt (String "-" (NilEmpty.string_of_uint d))
    = match parseDigits 10 (NilEmpty.string_of_uint d) (Some 0) with
      | Some n => Num (-1 * n)
      | None => NaN
      end).
  { intros d Hd. destruct d as [|d|d|d|d|d|d|d|d|d|d]; [contradiction|..];
      destruct d; reflexivity. }
  rewrite (Hparse _ Hnn), parseDigits_zero, Hval. f_equal.
Qed.

(** [parseInt(String(n))] is [n]. *)
Lemma parseInt_String_of_int (n : Z) : parseInt (String_of_int n) = Num n.
Proof.
  unfold String_of_int, NilZero.string_of_int, Z.to_int.
  destruct n as [|p|p].
  - reflexivity.
  - unfold NilZero.string_of_uint.
    assert (Hnn : Pos.to_uint p <> Decimal.Nil)
      by apply DecimalPos.Unsigned.to_uint_nonnil.
    destruct (Pos.to_uint p) eqn:E; [contradiction|..]; rewrite <- E; apply parseInt_pos.
  - unfold NilZero.string_of_uint.
    assert (Hnn : Pos.to_uint p <> Decimal.Nil)
      by apply DecimalPos.Unsigned.to_uint_nonnil.
    destruct (Pos.to_uint p) eqn:E; [contradiction|..]; rewrite <- E; apply parseInt_neg.
Qed.

(** The numeral of a number is never empty. *)
Lemma String_of_int_nonempty (n : Z) : String_of_int n <> "".
Proof.
  intros H. assert (Hp := parseInt_String_of_int n). rewrite H in Hp. discriminate Hp.
Qed.

End DecimalFacts.

(** X8.  A [limit] given as the decimal numeral of any integer [n] is clamped as
    intended: the effective limit is [n] cut off at 1 below and 100 above.
    Only the first [limit] parameter of the query counts. *)
Theorem numeric_limit_is_clamped (meth : string) (n : Z)
    (before after : list (string * string)) :
  Forall (fun kv => fst kv <> "limit") before ->
  RateLimitedFunction.effectiveLimit
    (mkRequest meth (before ++ ("limit", String_of_int n) :: after)%list)
  = Num (Z.min (Z.max n 1) 100).
Proof.
  intros Hbefore. unfold RateLimitedFunction.effectiveLimit, searchParams_get.
  cbn [searchParams].
  assert (Hget : JS.get "limit" (before ++ ("limit", String_of_int n) :: after)%list
                 = Some (String_of_int n)).
  { induction before as [|[k v] rest IH]; [reflexivity|].
    inversion Hbefore as [|? ? Hk Hrest]; subst. cbn [fst] in Hk.
    cbn [app JS.get]. destruct (String.eqb_spec k "limit"); [contradiction|].
    exact (IH Hrest). }
  rewrite Hget.
  assert (Hor : or_string (Some (String_of_int n)) "10" = String_of_int n).
  { unfold or_string. destruct (String_of_int n) eqn:E; [|reflexivity].
    exfalso. exact (DecimalFacts.String_of_int_nonempty n E). }
  rewrite Hor, DecimalFacts.parseInt_String_of_int. reflexivity.
Qed.

(** X9.  The three revisions of the function agree where they overlap.  Whether
    [neon()] throws decides the status in all of them, each later revision
    keeps every body property and header of the one before with the same
    value, and the rate-limited revision does so on every GET request it
    lets through while no connection is cached. *)
Theorem revisions_keep_status_and_earlier_properties
    (req : Request) (context : Context) (env : Env)
    (st : RateLimitedFunction.State) :
  let first := fst (DbTestLegacy.handler req context env) in
  let second := fst (DbTest.handler req context env) in
  let third := fst (fst (RateLimitedFunction.handler req context env st)) in
  (status second = status first /\
   extends (body second) (body first) /\
   extends (headers second) (headers first)) /\
  (method req = "GET" ->
   RateLimitedFunction.cachedSql st = false ->
   fst (checkRateLimit_default (or_string (ip context) "unknown") (now env)
          (RateLimitedFunction.rateLimitMap st)) = true ->
   status third = status second /\
   extends (body third) (body second) /\
   extends (headers third) (headers second)).
Proof.
  cbn zeta. split.
  - unfold DbTest.handler, DbTestLegacy.handler.
    destruct (neon env) as [e|]; cbn [fst]; (split; [reflexivity|]);
      split; intros k v; cbn [body headers DbTest.available DbTest.connectionFailed
                               DbTestLegacy.available DbTestLegacy.connectionFailed
                               JS.get];
      repeat (match goal with
              | |- context [String.eqb ?a k] => destruct (String.eqb a k)
              end; [intros H; exact H|]);
      intros H; discriminate H.
  - intros Hm Hc Hok.
    unfold RateLimitedFunction.handler, DbTest.handler. rewrite Hm.
    change (negb ("GET" =? "GET")%string) with false. cbv iota.
    destruct (checkRateLimit_default _ _ _) as [ok m1].
    cbn [fst] in Hok. subst ok. cbn [negb].
    unfold RateLimitedFunction.getSql. cbn [RateLimitedFunction.cachedSql].
    rewrite Hc.
    destruct (neon env) as [e|]; cbn [fst]; (split; [reflexivity|]);
      split; intros k v;
      cbn [body headers DbTest.available DbTest.connectionFailed
           RateLimitedFunction.available RateLimitedFunction.connectionFailed JS.get];
      repeat (match goal with
              | |- context [String.eqb ?a k] =>
                  destruct (String.eqb_spec a k) as [<- | ?]
              end; [cbn; try (intros H; exact H); try (intros H; discriminate H)|]);
      try (intros H; discriminate H).
Qed.

(* ===================================================================== *)
(** ** More about the components *)
(* ===================================================================== *)

Import Markup AppView.

(** X10.  Moving the card into [CoinCard] and the formatting into
    [formattedCoins] changed nothing on the page: in every state the
    earlier [App] and the present one return the same tree. *)
Theorem refactored_App_renders_the_same_tree
    (toLocaleString toFixed2 : Q -> string) (toUpperCase : string -> string)
    (s : AppView.State) :
  legacyView toLocaleString toFixed2 toUpperCase s
  = view toLocaleString toFixed2 toUpperCase s.
Proof.
  unfold legacyView, view.
  destruct (loading s); [reflexivity|].
  destruct (truthy (error s)); [reflexivity|].
  f_equal. rewrite map_map. apply map_ext. intros c. reflexivity.
Qed.

(** X11.  [CoinCard]'s comparison function is exact: it lets React reuse the
    previous output precisely when the new props would render the same
    tree. *)
Theorem CoinCard_skips_exactly_the_renders_that_change_nothing
    (prevProps nextProps : CoinCard.Props) :
  CoinCard.areEqual prevProps nextProps = true
  <-> CoinCard.render prevProps = CoinCard.render nextProps.
Proof.
  destruct prevProps as [n1 u1 p1 c1 b1], nextProps as [n2 u2 p2 c2 b2].
  unfold CoinCard.areEqual, CoinCard.render.
  cbn [CoinCard.name CoinCard.upperSymbol CoinCard.formattedPrice
       CoinCard.formattedChange CoinCard.isPositive].
  split.
  - intros H. repeat (apply andb_prop in H; destruct H as [H ?]).
    repeat match goal with
           | E : (_ =? _)%string = true |- _ => apply String.eqb_eq in E
           | E : Bool.eqb _ _ = true |- _ => apply Bool.eqb_prop in E
           end.
    subst. reflexivity.
  - intros H. injection H as Hname Hsym Hprice Hclass Hsign Hchange.
    subst. rewrite !String.eqb_refl. cbn [andb].
    destruct b1, b2; try reflexivity; discriminate Hsign.
Qed.

(** X12.  An [Error] with an empty message is not reported.  After an unaborted
    [fetchCoins] whose [try] block threw, loading is over; the page shows
    the message of the error, or [Failed to fetch coins] for a thrown value
    that is no [Error]; but when the message is empty the error screen is
    skipped and the coin list is rendered as if nothing had happened. *)
Theorem empty_error_message_shows_the_list
    (toLocaleString toFixed2 : Q -> string) (toUpperCase : string -> string)
    (thrown : JS.Thrown) (s : AppView.State) :
  let after := updates (fetchCoins (Some thrown) false) s in
  let message := JS.message_or thrown "Failed to fetch coins" in
  loading after = false /\
  error after = Some message /\
  coins after = coins s /\
  view toLocaleString toFixed2 toUpperCase after
  = (if String.eqb message ""
     then view toLocaleString toFixed2 toUpperCase (AppView.mkState (coins s) false None)
     else Elem "div" "error" [Text message]).
Proof.
  cbn zeta. cbn [fetchCoins negb updates update loading error coins].
  repeat split. unfold view. cbn [loading error coins truthy].
  destruct (JS.message_or thrown "Failed to fetch coins"); reflexivity.
Qed.

(** X13.  The memo is transparent.  However many renders there have been and
    with whatever sequence of [coins] references, the array that
    [formattedCoins] is bound to holds exactly the formatted coins of the
    array behind the current reference. *)
Theorem formattedCoins_always_formats_the_current_coins
    (toLocaleString toFixed2 : Q -> string) (toUpperCase : string -> string)
    (earlier : list ref) (current : ref) (f : Fiber) :
  memoCell f = None ->
  let out := render toLocaleString toFixed2 toUpperCase current
               (rerender toLocaleString toFixed2 toUpperCase earlier f) in
  formattedArrays (heap (snd out)) !! fst out
  = Some (map (formatCoin toLocaleString toFixed2 toUpperCase)
            (default [] (coinArrays (heap f) !! current))).
Proof.
  intros Hcell. cbn zeta.
  set (fmt := formatCoin toLocaleString toFixed2 toUpperCase).
  set (coherent := fun g : Fiber =>
    coinArrays (heap g) = coinArrays (heap f) /\
    forall dep v, memoCell g = Some (dep, v) ->
      formattedArrays (heap g) !! v
      = Some (map fmt (default [] (coinArrays (heap f) !! dep)))).
  assert (Hstep : forall c g, coherent g ->
    coherent (snd (render toLocaleString toFixed2 toUpperCase c g)) /\
    formattedArrays (heap (snd (render toLocaleString toFixed2 toUpperCase c g)))
      !! fst (render toLocaleString toFixed2 toUpperCase c g)
    = Some (map fmt (default [] (coinArrays (heap f) !! c)))).
  { intros c g [Harr Hmemo]. unfold render, useMemo_formattedCoins.
    assert (Hcompute :
      coherent (snd (computeFormatted toLocaleString toFixed2 toUpperCase c g)) /\
      formattedArrays (heap (snd (computeFormatted toLocaleString toFixed2 toUpperCase c g)))
        !! fst (computeFormatted toLocaleString toFixed2 toUpperCase c g)
      = Some (map fmt (default [] (coinArrays (heap f) !! c)))).
    { unfold computeFormatted, coherent.
      cbn [fst snd heap memoCell coinArrays formattedArrays].
      rewrite Harr. repeat split.
      - intros dep v Hdv. injection Hdv as <- <-. apply lookup_insert_eq.
      - apply lookup_insert_eq. }
    assert (Hcoh : coherent g) by exact (conj Harr Hmemo).
    destruct (memoCell g) as [[dep v]|] eqn:Hg; [|exact Hcompute].
    destruct (Nat.eqb_spec dep c) as [-> | _]; [|exact Hcompute].
    cbn [fst snd]. split; [exact Hcoh|]. apply Hmemo. reflexivity. }
  assert (Hall : forall refs g, coherent g ->
    coherent (rerender toLocaleString toFixed2 toUpperCase refs g)).
  { induction refs as [|c rest IH]; intros g Hg; [exact Hg|].
    unfold rerender. cbn [fold_left]. apply IH. apply Hstep. exact Hg. }
  apply Hstep. apply Hall. split; [reflexivity|].
  intros dep v Hdv. rewrite Hcell in Hdv. discriminate Hdv.
Qed.

(* ===================================================================== *)
(** ** More about the migration *)
(* ===================================================================== *)

Module MigrationFacts.
Import Migration Catalogue.

Lemma keeps_refl (db : Database) : keeps db db.
Proof.
  unfold keeps. repeat split; try (intros; assumption).
  intros t tb Ht. exists tb. repeat split; [exact Ht | tauto | tauto].
Qed.

Lemma keeps_trans (a b c : Database) : keeps a b -> keeps b c -> keeps a c.
Proof.
  intros (E1 & T1 & I1 & P1 & F1 & G1) (E2 & T2 & I2 & P2 & F2 & G2).
  unfold keeps. repeat split; auto.
  intros t tb Ht. destruct (T1 t tb Ht) as (tb1 & Ht1 & Hr1 & Ho1).
  destruct (T2 t tb1 Ht1) as (tb2 & Ht2 & Hr2 & Ho2).
  exists tb2. repeat split; auto.
Qed.

(** Changing one table in a way that keeps its flag and rows. *)
Lemma keeps_setTable (db : Database) (t : string) (old new : Table) :
  tables db !! t = Some old ->
  (t_rls old = true -> t_rls new = true) ->
  (forall o, In o (t_rows old) -> In o (t_rows new)) ->
  keeps db (setTables db (<[t := new]> (tables db))).
Proof.
  intros Hold Hrls Hrows. unfold keeps, setTables, hasPolicy, hasTrigger.
  cbn [extensions tables indexes policies functions triggers].
  repeat split; try (intros; assumption).
  intros t' tb Ht'. destruct (String.eqb_spec t t') as [<- | Hne].
  - rewrite Hold in Ht'. injection Ht' as <-.
    exists new. rewrite lookup_insert_eq. repeat split; assumption.
  - exists tb. rewrite lookup_insert_ne by exact Hne. repeat split; tauto.
Qed.

Lemma insertRows_keeps (key : list string) (new : list (list (string * string))) :
  forall old o, In o old -> In o (insertRows key new old).
Proof.
  induction new as [|r rest IH]; intros old o Ho; [exact Ho|].
  cbn [insertRows]. destruct (existsb (agreeOn key r) old); apply IH;
    [exact Ho | apply in_or_app; left; exact Ho].
Qed.

Lemma insertRows_covers (key : list string) (new : list (list (string * string))) :
  forall old r,
    In r new -> agreeOn key r r = true ->
    exists o, In o (insertRows key new old) /\ agreeOn key r o = true.
Proof.
  induction new as [|r0 rest IH]; intros old r Hr Hself; [contradiction|].
  cbn [insertRows]. destruct Hr as [-> | Hr].
  - destruct (existsb (agreeOn key r) old) eqn:Hex.
    + apply existsb_exists in Hex. destruct Hex as (o & Ho & Hagree).
      exists o. split; [apply insertRows_keeps; exact Ho | exact Hagree].
    + exists r. split; [|exact Hself].
      apply insertRows_keeps. apply in_or_app. right. left. reflexivity.
  - destruct (existsb (agreeOn key r0) old); apply IH; assumption.
Qed.

(** A row built from the inserted columns has a value in each of them. *)
Lemma get_combine (c : string) (cols row : list string) :
  mem c cols = true -> length row = length cols ->
  is_Some (JS.get c (combine cols row)).
Proof.
  revert row. induction cols as [|k cols IH]; intros row Hmem Hlen; [discriminate Hmem|].
  destruct row as [|v row]; [discriminate Hlen|].
  cbn [combine JS.get]. cbn [mem existsb] in Hmem.
  destruct (String.eqb_spec k c) as [-> | Hne]; [eexists; reflexivity|].
  apply IH; [|cbn in Hlen; lia].
  destruct (String.eqb_spec c k) as [-> | _]; [contradiction|]. exact Hmem.
Qed.

Lemma agreeOn_self (key cols row : list string) :
  subset key cols = true -> length row = length cols ->
  agreeOn key (combine cols row) (combine cols row) = true.
Proof.
  intros Hsub Hlen. unfold agreeOn, subset in *.
  rewrite forallb_forall in *. intros c Hc.
  destruct (get_combine c cols row (Hsub c Hc) Hlen) as [v ->].
  apply String.eqb_refl.
Qed.

(** A statement that succeeds takes nothing away. *)
Lemma exec_keeps (s : Statement) (db db' : Database) :
  exec s db = Some db' -> keeps db db'.
Proof.
  destruct s; cbn [exec]; intros H.
  - injection H as <-. destruct (mem ext (extensions db)) eqn:Hext; [apply keeps_refl|].
    unfold keeps, hasPolicy, hasTrigger, mem;
      cbn [extensions tables indexes policies functions triggers existsb];
      repeat split; try (intros; assumption).
    + intros e He. rewrite He. apply orb_true_r.
    + intros t tb Ht. exists tb. repeat split; tauto.
  - destruct (hasTable db table) eqn:Hhas; [injection H as <-; apply keeps_refl|].
    destruct (forallb (hasTable db) references && _); [|discriminate H].
    injection H as <-.
    unfold keeps, setTables, hasPolicy, hasTrigger, mem;
      cbn [extensions tables indexes policies functions triggers existsb];
      repeat split; try (intros; assumption).
    intros t tb Ht. exists tb.
    assert (Hne : table <> t).
    { intros ->. unfold hasTable in Hhas. rewrite Ht in Hhas. discriminate Hhas. }
    rewrite lookup_insert_ne by exact Hne. repeat split; tauto.
  - destruct (indexes db !! index) eqn:Hidx; [injection H as <-; apply keeps_refl|].
    destruct (tables db !! table) as [tb|]; [|discriminate H].
    destruct (subset columns (t_columns tb)); [|discriminate H].
    injection H as <-.
    unfold keeps, hasPolicy, hasTrigger, mem;
      cbn [extensions tables indexes policies functions triggers existsb];
      repeat split; try (intros; assumption).
    + intros t tb0 Ht. exists tb0. repeat split; tauto.
    + intros i Hi. destruct (String.eqb_spec index i) as [<- | Hne].
      * rewrite lookup_insert_eq. eexists; reflexivity.
      * rewrite lookup_insert_ne by exact Hne. exact Hi.
  - destruct (tables db !! table) as [tb|] eqn:Ht; [|discriminate H].
    injection H as <-. apply (keeps_setTable db table tb); [exact Ht | reflexivity | tauto].
  - destruct (hasTable db table && _); [|discriminate H].
    injection H as <-.
    unfold keeps, hasPolicy, hasTrigger, mem;
      cbn [extensions tables indexes policies functions triggers existsb];
      repeat split; try (intros; assumption).
    + intros t tb Ht. exists tb. repeat split; tauto.
    + intros p t Hp. rewrite Hp. apply orb_true_r.
  - injection H as <-. destruct (mem fn (functions db)) eqn:Hfn; [apply keeps_refl|].
    unfold keeps, hasPolicy, hasTrigger, mem;
      cbn [extensions tables indexes policies functions triggers existsb];
      repeat split; try (intros; assumption).
    + intros t tb Ht. exists tb. repeat split; tauto.
    + intros f Hf. rewrite Hf. apply orb_true_r.
  - destruct (hasTable db table && mem fn (functions db) && _); [|discriminate H].
    injection H as <-.
    unfold keeps, hasPolicy, hasTrigger, mem;
      cbn [extensions tables indexes policies functions triggers existsb];
      repeat split; try (intros; assumption).
    + intros t tb Ht. exists tb. repeat split; tauto.
    + intros g t Hg. rewrite Hg. apply orb_true_r.
  - destruct (tables db !! table) as [tb|] eqn:Ht; [|discriminate H].
    destruct (subset columns (t_columns tb) && _ && _); [|discriminate H].
    injection H as <-. apply (keeps_setTable db table tb); [exact Ht | tauto |].
    cbn [t_rows]. intros o Ho. apply insertRows_keeps. exact Ho.
  - destruct (hasTable db table); [|discriminate H]. injection H as <-. apply keeps_refl.
  - destruct (tables db !! table) as [tb|]; [|discriminate H].
    destruct (mem column (t_columns tb)); [|discriminate H].
    injection H as <-. apply keeps_refl.
Qed.

(** What is established stays established in a catalogue that keeps
    everything. *)
Lemma established_keeps (s : Statement) (db db' : Database) :
  keeps db db' -> established s db -> established s db'.
Proof.
  intros (E & T & I & P & F & G).
  assert (Htab : forall t, hasTable db t = true -> hasTable db' t = true).
  { intros t Ht. unfold hasTable in *. destruct (tables db !! t) as [tb|] eqn:Hl;
      [|discriminate Ht].
    destruct (T t tb Hl) as (tb' & -> & _). reflexivity. }
  destruct s; cbn [established]; auto.
  - intros (tb & Ht & Hr). destruct (T table tb Ht) as (tb' & Ht' & Hr' & _).
    exists tb'. split; [exact Ht' | exact (Hr' Hr)].
  - intros Hrows Hsub. destruct (Hrows Hsub) as (tb & Ht & Hall).
    destruct (T table tb Ht) as (tb' & Ht' & _ & Ho').
    exists tb'. split; [exact Ht'|].
    intros r Hr. destruct (Hall r Hr) as (o & Ho & Hagree).
    exists o. split; [exact (Ho' o Ho) | exact Hagree].
Qed.

(** A statement that succeeds has established what it is there for. *)
Lemma exec_establishes (s : Statement) (db db' : Database) :
  exec s db = Some db' -> established s db'.
Proof.
  destruct s; cbn [exec established]; intros H.
  - injection H as <-. destruct (mem ext (extensions db)) eqn:Hext; [exact Hext|].
    cbn. rewrite String.eqb_refl. reflexivity.
  - unfold hasTable in *. destruct (tables db !! table) eqn:Ht.
    + injection H as <-. rewrite Ht. reflexivity.
    + destruct (forallb _ references && _); [|discriminate H].
      injection H as <-. cbn. rewrite lookup_insert_eq. reflexivity.
  - destruct (indexes db !! index) eqn:Hidx.
    + injection H as <-. rewrite Hidx. eexists; reflexivity.
    + destruct (tables db !! table) as [tb|]; [|discriminate H].
      destruct (subset columns (t_columns tb)); [|discriminate H].
      injection H as <-. cbn. rewrite lookup_insert_eq. eexists; reflexivity.
  - destruct (tables db !! table) as [tb|]; [|discriminate H].
    injection H as <-. cbn. rewrite lookup_insert_eq. eexists. split; reflexivity.
  - destruct (hasTable db table && _); [|discriminate H].
    injection H as <-. unfold hasPolicy. cbn. rewrite !String.eqb_refl. reflexivity.
  - injection H as <-. destruct (mem fn (functions db)) eqn:Hfn; [exact Hfn|].
    cbn. rewrite String.eqb_refl. reflexivity.
  - destruct (hasTable db table && mem fn (functions db) && _); [|discriminate H].
    injection H as <-. unfold hasTrigger. cbn. rewrite !String.eqb_refl. reflexivity.
  - destruct (tables db !! table) as [tb|]; [|discriminate H].
    destruct (subset columns (t_columns tb) && _ && _) eqn:Hchk; [|discriminate H].
    injection H as <-. intros Hsub.
    apply andb_prop in Hchk. destruct Hchk as [_ Hlen].
    rewrite forallb_forall in Hlen.
    cbn. rewrite lookup_insert_eq. eexists. split; [reflexivity|].
    cbn [t_rows]. intros r Hr.
    apply insertRows_covers.
    + apply in_map. exact Hr.
    + apply agreeOn_self; [exact Hsub|]. apply Nat.eqb_eq. exact (Hlen r Hr).
  - destruct (hasTable db table) eqn:Ht; [|discriminate H]. injection H as <-. exact Ht.
  - unfold hasTable. destruct (tables db !! table) as [tb|] eqn:Ht; [|discriminate H].
    destruct (mem column (t_columns tb)); [|discriminate H].
    injection H as <-. rewrite Ht. reflexivity.
Qed.

Lemma apply_keeps (script : list Statement) :
  forall db db', apply script db = Some db' -> keeps db db'.
Proof.
  induction script as [|s rest IH]; intros db db' H; cbn [apply] in H.
  - injection H as <-. apply keeps_refl.
  - destruct (exec s db) as [db1|] eqn:Hs; [|discriminate H].
    exact (keeps_trans _ _ _ (exec_keeps s db db1 Hs) (IH db1 db' H)).
Qed.

Lemma apply_establishes (script : list Statement) :
  forall db db' s,
    In s script -> apply script db = Some db' -> established s db'.
Proof.
  induction script as [|s0 rest IH]; intros db db' s Hin H; [contradiction|].
  cbn [apply] in H. destruct (exec s0 db) as [db1|] eqn:Hs0; [|discriminate H].
  destruct Hin as [<- | Hin].
  - apply (established_keeps s0 db1 db' (apply_keeps rest db1 db' H)).
    exact (exec_establishes s0 db db1 Hs0).
  - exact (IH db1 db' s Hin H).
Qed.

(** A script with a CREATE POLICY cannot run on a catalogue that already
    has that policy. *)
Lemma apply_fails_on_existing_policy (script : list Statement) :
  forall db p t cmd,
    In (CREATE_POLICY p t cmd) script ->
    hasPolicy db p t = true ->
    apply script db = None.
Proof.
  induction script as [|s0 rest IH]; intros db p t cmd Hin Hp; [contradiction|].
  cbn [apply]. destruct Hin as [-> | Hin].
  - cbn [exec]. unfold hasPolicy in Hp. rewrite Hp.
    rewrite andb_false_r. reflexivity.
  - destruct (exec s0 db) as [db1|] eqn:Hs0; [|reflexivity].
    apply (IH db1 p t cmd Hin).
    destruct (exec_keeps s0 db db1 Hs0) as (_ & _ & _ & P & _). exact (P p t Hp).
Qed.

End MigrationFacts.

Import Catalogue.


(** X15.  The migration cannot be applied twice.  Its tables, indexes and seed
    rows are guarded against repetition, but its CREATE POLICY statements
    are not: on any database it has succeeded on, a second run fails. *)
Theorem migration_fails_when_applied_again (db db' : Database) :
  apply create_coins_schema db = Some db' ->
  apply create_coins_schema db' = None.
Proof.
  intros Happly.
  assert (Hin : In (CREATE_POLICY readAll "coins" FOR_SELECT) create_coins_schema).
  { unfold create_coins_schema. repeat (first [left; reflexivity | right]). }
  apply (MigrationFacts.apply_fails_on_existing_policy create_coins_schema db'
           readAll "coins" FOR_SELECT Hin).
  exact (MigrationFacts.apply_establishes create_coins_schema db db' _ Hin Happly).
Qed.

(* ===================================================================== *)
(** ** The further properties at concrete inputs *)
(* ===================================================================== *)

Import MoreSamples.

(** A client that calls 101 times inside one window. *)
Lemma window_lets_sixty_through_at_sample :
  Forall (fun t => t <= 1000 + 60000) hundredCalls /\
  snd (calls (map (fun t => ("a", t)) (1000 :: hundredCalls)) ∅) !! "a"
  = Some (mkRecord 60 61000).
Proof.
  assert (Hwin : Forall (fun t => t <= 1000 + 60000) hundredCalls).
  { unfold hundredCalls. apply List.Forall_forall. intros t Ht.
    apply repeat_spec in Ht. subst t. lia. }
  split; [exact Hwin|].
  destruct (window_lets_sixty_through_whatever_follows "a" ∅ 1000 hundredCalls
              (or_introl (lookup_empty "a")) Hwin) as [_ Hrec].
  exact Hrec.
Defined.

(** The record of client ["a"] after the traffic of two clients. *)
Lemma records_count_1_to_60_at_sample :
  snd (calls twoClients ∅) !! "a" = Some (mkRecord 1 130000) /\
  1 <= 1 <= 60 /\
  exists t, In ("a", t) twoClients /\ 130000 = t + 60000.
Proof.
  assert (Hrec : snd (calls twoClients ∅) !! "a" = Some (mkRecord 1 130000))
    by (vm_compute; reflexivity).
  split; [exact Hrec|].
  exact (records_count_1_to_60_and_end_a_window_of_their_client twoClients "a"
           (mkRecord 1 130000) Hrec).
Defined.

(** The crowd has no entry for ["zz"] and none that is stale at 100000 ms. *)
Lemma crowd_without_zz : crowd !! "zz" = None.
Proof. vm_compute. reflexivity. Qed.

Lemma list_to_map_all (P : RateRecord -> Prop) (l : list (string * RateRecord)) :
  (forall kv, In kv l -> P (snd kv)) ->
  forall k r, (list_to_map l : gmap string RateRecord) !! k = Some r -> P r.
Proof.
  intros Hall k r Hk. apply elem_of_list_to_map_2 in Hk. apply list_elem_of_In in Hk.
  exact (Hall (k, r) Hk).
Qed.

Lemma crowd_windows_end_at_100000 (k : string) (r : RateRecord) :
  crowd !! k = Some r -> 100000 - 60000 <= resetTime r.
Proof.
  apply (list_to_map_all (fun r => 100000 - 60000 <= resetTime r)).
  intros kv Hin. apply in_map_iff in Hin. destruct Hin as (i & <- & _).
  cbn [snd resetTime]. lia.
Qed.

(** A new client calls while the map holds 10001 entries, none of them more
    than a window old. *)
Lemma each_call_adds_at_most_one_entry_at_sample :
  crowd !! "zz" = None /\
  size (snd (checkRateLimit_default "zz" 100000 crowd)) = S (size crowd).
Proof.
  split; [exact crowd_without_zz|].
  destruct (each_call_adds_at_most_one_entry "zz" 100000 crowd) as [_ Hgrow].
  exact (Hgrow crowd_without_zz crowd_windows_end_at_100000).
Defined.

(** Sixty-one visits on all of which [neon()] throws. *)
Lemma failed_requests_use_up_the_window_at_sample :
  length sixtyFailingVisits = 60%nat /\
  map status (fst (RateLimitedFunction.serve (failingVisit :: sixtyFailingVisits)
                     RateLimitedFunction.initial))
  = (repeat 500 60 ++ [429])%list /\
  map (fun r => status r =? 429)
      (fst (RateLimitedFunction.serve (failingVisit :: sixtyFailingVisits)
              RateLimitedFunction.initial))
  = (repeat false 60 ++ [true])%list.
Proof.
  split; [reflexivity|]. split; [vm_compute; reflexivity|].
  apply (failed_requests_use_up_the_window "203.0.113.7" failingVisit
           sixtyFailingVisits RateLimitedFunction.initial).
  - reflexivity.
  - repeat constructor.
  - repeat (constructor; [cbn; lia|]). constructor.
  - left. apply lookup_empty.
Defined.

(** A visit served with 200, then one on which [neon()] would throw. *)
Lemma no_500_after_a_200_at_sample :
  Exists (fun r => status r = 200)
    (fst (RateLimitedFunction.serve [firstVisit] RateLimitedFunction.initial)) /\
  Forall (fun r => status r <> 500)
    (fst (RateLimitedFunction.serve [failingVisit]
            (snd (RateLimitedFunction.serve [firstVisit] RateLimitedFunction.initial)))).
Proof.
  assert (Hex : Exists (fun r => status r = 200)
                  (fst (RateLimitedFunction.serve [firstVisit]
                          RateLimitedFunction.initial))).
  { apply Exists_exists. eexists. split; [left; reflexivity | vm_compute; reflexivity]. }
  split; [exact Hex|].
  destruct (no_500_after_a_200 [firstVisit] [failingVisit]
              RateLimitedFunction.initial Hex) as [_ Hno].
  exact Hno.
Defined.

(** Sixty visits inside one window. *)
Lemma remaining_header_counts_down_at_sample :
  (length fiftyNineVisits <= 59)%nat /\
  map (fun r => JS.get "X-RateLimit-Remaining" (headers r))
      (fst (RateLimitedFunction.serve (firstVisit :: fiftyNineVisits)
              RateLimitedFunction.initial))
  = map (fun k => Some (String_of_int (59 - Z.of_nat k))) (seq 0 60).
Proof.
  assert (Hlen : (length fiftyNineVisits <= 59)%nat) by (cbn; lia).
  split; [exact Hlen|].
  apply (remaining_header_counts_down "203.0.113.7" firstVisit fiftyNineVisits
           RateLimitedFunction.initial Hlen).
  - repeat constructor.
  - repeat (constructor; [cbn; lia|]). constructor.
  - left. apply lookup_empty.
Defined.

(** [?page=2&limit=250&limit=5] *)
Lemma numeric_limit_is_clamped_at_sample :
  Forall (fun kv : string * string => fst kv <> "limit") [("page", "2")] /\
  RateLimitedFunction.effectiveLimit (mkRequest "GET" pagedQuery) = Num 100.
Proof.
  assert (Hb : Forall (fun kv : string * string => fst kv <> "limit") [("page", "2")])
    by (repeat constructor; discriminate).
  split; [exact Hb|].
  exact (numeric_limit_is_clamped "GET" 250 [("page", "2")] [("limit", "5")] Hb).
Defined.

(** A first GET on which [neon()] throws, seen by the three revisions. *)
Lemma revisions_keep_status_at_sample :
  status (fst (DbTest.handler getRequest visitor failingEnv))
  = status (fst (DbTestLegacy.handler getRequest visitor failingEnv)) /\
  status (fst (fst (RateLimitedFunction.handler getRequest visitor failingEnv
                      RateLimitedFunction.initial)))
  = status (fst (DbTest.handler getRequest visitor failingEnv)).
Proof.
  destruct (revisions_keep_status_and_earlier_properties getRequest visitor failingEnv
              RateLimitedFunction.initial) as [(Hfirst & _ & _) Hthird].
  split; [exact Hfirst|].
  destruct (Hthird eq_refl eq_refl eq_refl) as (Hst & _ & _). exact Hst.
Defined.

(** Renders with the references 0, 1, 0 and then 1 again. *)
Lemma formattedCoins_always_formats_at_sample :
  memoCell freshFiber = None /\
  (let out := render plainNumber plainNumber sameString 1%nat
                (rerender plainNumber plainNumber sameString [0; 1; 0]%nat freshFiber) in
   formattedArrays (heap (snd out)) !! fst out
   = Some (map (formatCoin plainNumber plainNumber sameString) mockCoins)).
Proof.
  split; [reflexivity|].
  exact (formattedCoins_always_formats_the_current_coins plainNumber plainNumber
           sameString [0; 1; 0]%nat 1%nat freshFiber eq_refl).
Defined.


Lemma migration_fails_when_applied_again_at_sample :
  Migration.apply create_coins_schema Migration.empty = Some migrated /\
  Migration.apply create_coins_schema migrated = None.
Proof.
  assert (Hrun : Migration.apply create_coins_schema Migration.empty = Some migrated)
    by (vm_compute; reflexivity).
  split; [exact Hrun|].
  exact (migration_fails_when_applied_again Migration.empty migrated Hrun).
Defined.
